(** * winobj/winmutex: named system mutexes behind a pinned OS thread

    A shallow embedding of the Go packages [lockedthread], [synchapi] and
    [winmutex].  The model is sequential: one public call runs at a time, so
    the [sync.Mutex] guards, which every method takes on entry and releases
    by a deferred unlock on every exit (panics included), are free between
    calls and are not represented.  What the operating system answers to a
    native call is an argument of the operation that makes the call. *)

From stdpp Require Import base gmap sets list strings.
From Stdlib Require Import ZArith Lia.

Set Warnings "-register-all".
Open Scope Z_scope.

(** ** Errors and panics *)

(** Go [error] values, kept structural.  [Errno] is [syscall.Errno];
    [ErrorString] is a [fmt.Errorf] without a wrapping verb; [WrapError msg e]
    is [fmt.Errorf] whose format ends in [": %w"], with [msg] the text before
    the colon; [JoinError] is the value built by [errors.Join]. *)
Inductive error : Type :=
| Errno (e : Z)
| ErrorString (msg : string)
| WrapError (msg : string) (err : error)
| JoinError (errs : list error).

(** What a [panic] carries: a string, an error, or the runtime's nil
    pointer dereference. *)
Inductive PanicValue : Type :=
| PanicString (msg : string)
| PanicError (err : error)
| NilDereference.

(** [errors.Join]: nil when every argument is nil, otherwise the non-nil
    arguments in order. *)
Definition errors_Join (errs : list (option error)) : option error :=
  match omap id errs with
  | [] => None
  | es => Some (JoinError es)
  end.

(** ** The operating system as seen by the process *)

(** The OS thread a native call executes on: the caller's own, or the
    pinned thread of an executor. *)
Inductive OSThread : Type :=
| Caller
| Pinned (tid : nat).

Inductive Event : Type :=
| ThreadStart (tid : nat)
| ThreadExit (tid : nat)
| CallCreateMutex (on : OSThread) (name : string) (initialOwner : bool)
| CallOpenMutex (on : OSThread) (name : string)
| CallWait (on : OSThread) (h : Z) (ms : Z)
| CallReleaseMutex (on : OSThread) (h : Z)
| CallCloseHandle (on : OSThread) (h : Z).

(** [live]: the pinned OS threads that are running; [handles]: the handles
    the kernel has open for the process; [trace]: native calls and thread
    events, oldest first. *)
Record World : Type := mkWorld {
  live : gset nat;
  handles : gset Z;
  trace : list Event
}.

Definition log (ev : Event) (w : World) : World :=
  mkWorld (live w) (handles w) (trace w ++ [ev]).

Definition set_live (l : gset nat) (w : World) : World :=
  mkWorld l (handles w) (trace w).

Definition set_handles (hs : gset Z) (w : World) : World :=
  mkWorld (live w) hs (trace w).

(** A non-null value returned by a create or open call is a handle the
    kernel has opened. *)
Definition handle_opened (h : Z) (w : World) : World :=
  if h =? 0 then w else set_handles (handles w ∪ {[h]}) w.

(** [r0, _, e := syscall.SyscallN(...)]: the return value and the thread's
    last-error code. *)
Record SyscallReply : Type := mkReply {
  r0 : Z;
  lasterr : Z
}.

(** ** Package syscall (Go standard library, Windows) *)
Module syscall.

Definition MAX_PATH : nat := 260.
Definition ERROR_FILE_NOT_FOUND : Z := 2.
Definition ERROR_ALREADY_EXISTS : Z := 183.
(** One of the values Go invents above [APPLICATION_ERROR = 1 << 29]. *)
Definition EINVAL : Z := 536870951.
Definition INFINITE : Z := 0xFFFFFFFF.

Fixpoint contains_NUL (s : string) : bool :=
  match s with
  | EmptyString => false
  | String c s' => (Nat.eqb (Ascii.nat_of_ascii c) 0) || contains_NUL s'
  end.

(** [UTF16PtrFromString]: fails with [EINVAL] when the string holds a NUL
    byte; the pointer itself is not modelled. *)
Definition UTF16PtrFromString (s : string) : option error :=
  if contains_NUL s then Some (Errno EINVAL) else None.

(** [WaitForSingleObject(handle, ms)] answers an event code and an
    error.  The error is for a wait that failed; the other outcomes
    (signaled, timed out, abandoned) are told apart by the event code, for
    which [synchapi] names [WaitTimeout] and [WaitAbandoned]. *)
Record WaitReply : Type := mkWait {
  event : Z;
  werr : option error
}.

Definition WaitForSingleObject (h : Z) (ms : Z) (r : WaitReply)
    (on : OSThread) (w : World) : (Z * option error) * World :=
  ((event r, werr r), log (CallWait on h ms) w).

(** [CloseHandle(handle)]: when the kernel reports success the handle is
    gone from the process's table. *)
Definition CloseHandle (h : Z) (r : option error)
    (on : OSThread) (w : World) : option error * World :=
  let w' := log (CallCloseHandle on h) w in
  match r with
  | None => (None, set_handles (handles w' ∖ {[h]}) w')
  | Some e => (Some e, w')
  end.

End syscall.

(** ** Package synchapi *)
Module synchapi.

Definition WaitAbandoned : Z := 0x00000080.
Definition WaitTimeout : Z := 0x00000102.

Definition too_long (name : string) : bool :=
  (syscall.MAX_PATH <=? String.length name + 1)%nat.

Definition create_too_long_error (name : string) : error :=
  ErrorString
    ("create mutex: name length exceeds the 260 character limit specified by MAX_PATH: "
     +:+ name).

Definition open_too_long_error (name : string) : error :=
  ErrorString
    ("open mutex: name length exceeds the 260 character limit specified by MAX_PATH: "
     +:+ name).

(** The conversion is attempted only for a non-empty name. *)
Definition utf16Name (name : string) : option error :=
  if decide (name = EmptyString) then None
  else syscall.UTF16PtrFromString name.

(** [CreateMutex(name, initialOwner, attrs)] with [attrs = nil]. *)
Definition CreateMutex (name : string) (initialOwner : bool)
    (k : SyscallReply) (on : OSThread) (w : World)
    : (Z * bool * option error) * World :=
  if too_long name then ((0, false, Some (create_too_long_error name)), w)
  else match utf16Name name with
       | Some err => ((0, false, Some err), w)
       | None =>
           let w' :=
             handle_opened (r0 k) (log (CallCreateMutex on name initialOwner) w) in
           if lasterr k =? syscall.ERROR_ALREADY_EXISTS then ((r0 k, true, None), w')
           else if lasterr k =? 0 then ((r0 k, false, None), w')
           else ((r0 k, false, Some (Errno (lasterr k))), w')
       end.

(** [OpenMutex(name)]. *)
Definition OpenMutex (name : string)
    (k : SyscallReply) (on : OSThread) (w : World)
    : (Z * option error) * World :=
  if too_long name then ((0, Some (open_too_long_error name)), w)
  else match utf16Name name with
       | Some err => ((0, Some err), w)
       | None =>
           let w' := handle_opened (r0 k) (log (CallOpenMutex on name) w) in
           let e :=
             if (r0 k =? 0) && (lasterr k =? 0) then syscall.EINVAL
             else lasterr k in
           let err := if e =? 0 then None else Some (Errno e) in
           ((r0 k, err), w')
       end.

(** [ReleaseMutex(h)]. *)
Definition ReleaseMutex (h : Z)
    (k : SyscallReply) (on : OSThread) (w : World)
    : (bool * option error) * World :=
  let released := negb (r0 k =? 0) in
  let err := if lasterr k =? 0 then None else Some (Errno (lasterr k)) in
  ((released, err), log (CallReleaseMutex on h) w).

End synchapi.

(** ** Package lockedthread *)
Module lockedthread.

(** [cmds] and [done] record whether the channel fields are non-nil; the
    goroutine behind the thread runs as long as [tid] is in [live]. *)
Record Thread : Type := mkThread {
  tid : nat;
  cmds : bool;
  done : bool
}.

(** [New()]: a goroutine is started and locked to an OS thread of its
    own. *)
Definition New (w : World) : Thread * World :=
  let t := fresh (live w) in
  (mkThread t true true,
   log (ThreadStart t) (set_live (live w ∪ {[t]}) w)).

Inductive RunResult (A : Type) : Type :=
| Ran (a : A) (w : World)
| RunPanics (p : PanicValue).
Arguments Ran {A} a w.
Arguments RunPanics {A} p.

Definition run_closed : PanicValue :=
  PanicString
    "lockedthread: Thread.Run() was called on a thread that has been closed".

(** [t.Run(f)]: [f] is executed on the pinned thread and [Run] returns
    when it has finished.  The receiver is a pointer that may be nil. *)
Definition Run {A : Type} (t : option Thread)
    (f : OSThread -> World -> A * World) (w : World) : RunResult A :=
  match t with
  | None => RunPanics NilDereference
  | Some th =>
      if cmds th then
        let '(a, w') := f (Pinned (tid th)) w in Ran a w'
      else RunPanics run_closed
  end.

(** [t.Close()] on a non-nil receiver. *)
Definition Close (t : Thread) (w : World) : option error * Thread * World :=
  if cmds t then
    (None, mkThread (tid t) false false,
     log (ThreadExit (tid t)) (set_live (live w ∖ {[tid t]}) w))
  else (None, t, w).

End lockedthread.

(** ** Package winmutex *)
Module winmutex.

Record Mutex : Type := mkMutex {
  name : string;
  thread : option lockedthread.Thread;
  handle : Z;
  locked : bool
}.

Definition set_thread (t : option lockedthread.Thread) (m : Mutex) : Mutex :=
  mkMutex (name m) t (handle m) (locked m).
Definition set_handle (h : Z) (m : Mutex) : Mutex :=
  mkMutex (name m) (thread m) h (locked m).
Definition set_locked (b : bool) (m : Mutex) : Mutex :=
  mkMutex (name m) (thread m) (handle m) b.

(** How a method call ends: it returns, or it panics; either way the
    receiver and the world are left in some state. *)
Inductive Outcome (A : Type) : Type :=
| Returns (a : A) (m : Mutex) (w : World)
| Panics (p : PanicValue) (m : Mutex) (w : World).
Arguments Returns {A} a m w.
Arguments Panics {A} p m w.

Definition quote : string := String (Ascii.ascii_of_nat 34) EmptyString.

Definition mutexDescription (name : string) : string :=
  if decide (name = EmptyString) then "an unnamed windows mutex"
  else "the windows mutex named " +:+ quote +:+ name +:+ quote.

Definition mutexWaitError (name : string) (err : error) : error :=
  WrapError ("winmutex: failed to wait for " +:+ mutexDescription name) err.

Definition mutexCreateError (name : string) (err : error) : error :=
  WrapError ("winmutex: failed to create " +:+ mutexDescription name) err.

Inductive NewResult : Type :=
| NewReturns (m : option Mutex) (err : option error) (w : World)
| NewPanics (p : PanicValue) (w : World).

(** [New(name)]. *)
Definition New (name : string) (k : SyscallReply) (w : World) : NewResult :=
  let '(thread, w1) := lockedthread.New w in
  match lockedthread.Run (Some thread)
          (synchapi.CreateMutex name false k) w1 with
  | lockedthread.RunPanics p => NewPanics p w1
  | lockedthread.Ran (handle, _, err) w2 =>
      match err with
      | Some e =>
          let '(_, _, w3) := lockedthread.Close thread w2 in
          NewReturns None (Some (mutexCreateError name e)) w3
      | None =>
          NewReturns (Some (mkMutex name (Some thread) handle false)) None w2
      end
  end.

(** [m.Name()]. *)
Definition Name (m : Mutex) : string := name m.

Definition lock_closed : PanicValue :=
  PanicString "winmutex: Mutex.Lock() called on a mutex that has been closed".
Definition trylock_closed : PanicValue :=
  PanicString "winmutex: Mutex.TryLock() called on a mutex that has been closed".
Definition unlock_not_locked : PanicValue :=
  PanicString "winmutex: Mutex.Unlock() called on a mutex that is not locked".
Definition unlock_not_released : PanicValue :=
  PanicString
    "winmutex: Mutex.Unlock() called on a mutex that was not locked, but was expected to be".

(** [m.Lock()]: the event code of the wait is discarded. *)
Definition Lock (r : syscall.WaitReply) (m : Mutex) (w : World) : Outcome unit :=
  match thread m with
  | None => Panics lock_closed m w
  | Some _ =>
      match lockedthread.Run (thread m)
              (fun on w0 =>
                 let '((_, err), w1) :=
                   syscall.WaitForSingleObject (handle m) syscall.INFINITE r on w0 in
                 (err, w1)) w with
      | lockedthread.RunPanics p => Panics p m w
      | lockedthread.Ran (Some e) w' =>
          Panics (PanicError (mutexWaitError (name m) e)) m w'
      | lockedthread.Ran None w' => Returns tt (set_locked true m) w'
      end
  end.

(** [m.TryLock()]. *)
Definition TryLock (r : syscall.WaitReply) (m : Mutex) (w : World) : Outcome bool :=
  match thread m with
  | None => Panics trylock_closed m w
  | Some _ =>
      match lockedthread.Run (thread m)
              (syscall.WaitForSingleObject (handle m) 0 r) w with
      | lockedthread.RunPanics p => Panics p m w
      | lockedthread.Ran (_, Some e) w' =>
          Panics (PanicError (mutexWaitError (name m) e)) m w'
      | lockedthread.Ran (event, None) w' =>
          if event =? synchapi.WaitTimeout then Returns false m w'
          else Returns true (set_locked true m) w'
      end
  end.

(** [m.Unlock()]. *)
Definition Unlock (k : SyscallReply) (m : Mutex) (w : World) : Outcome unit :=
  if negb (locked m) then Panics unlock_not_locked m w
  else
    match lockedthread.Run (thread m)
            (synchapi.ReleaseMutex (handle m) k) w with
    | lockedthread.RunPanics p => Panics p m w
    | lockedthread.Ran (_, Some e) w' =>
        Panics (PanicError (WrapError "winmutex: Mutex.Unlock()" e)) m w'
    | lockedthread.Ran (released, None) w' =>
        if negb released then Panics unlock_not_released m w'
        else Returns tt (set_locked false m) w'
    end.

(** The function [Close] hands to the pinned thread: release when locked,
    then close the handle; it yields [(err1, err2)]. *)
Definition close_on_thread (m : Mutex) (k : SyscallReply) (c : option error)
    (on : OSThread) (w : World) : (option error * option error) * World :=
  let '(err1, w1) :=
    if locked m then
      let '((_, e), w') := synchapi.ReleaseMutex (handle m) k on w in (e, w')
    else (None, w) in
  let '(err2, w2) := syscall.CloseHandle (handle m) c on w1 in
  ((err1, err2), w2).

(** [m.Close()]; [k] answers the release call and [c] the handle close,
    when they are made. *)
Definition Close (k : SyscallReply) (c : option error)
    (m : Mutex) (w : World) : Outcome (option error) :=
  match thread m with
  | None => Returns (errors_Join [None; None; None]) m w
  | Some th =>
      let finish err1 err2 m1 w1 :=
        let '(err3, _, w2) := lockedthread.Close th w1 in
        Returns (errors_Join [err1; err2; err3]) (set_thread None m1) w2 in
      if handle m =? 0 then finish None None m w
      else
        match lockedthread.Run (thread m) (close_on_thread m k c) w with
        | lockedthread.RunPanics p => Panics p m w
        | lockedthread.Ran (err1, err2) w1 =>
            finish err1 err2 (set_locked false (set_handle 0 m)) w1
        end
  end.

(** [Exists(name)]: the calling goroutine is locked to its OS thread for
    the duration of the call; [k] answers the open call and [c] the
    deferred handle close. *)
Definition Exists (name : string) (k : SyscallReply) (c : option error)
    (w : World) : (bool * option error) * World :=
  let '((handle, err), w1) := synchapi.OpenMutex name k Caller w in
  match err with
  | Some (Errno e) =>
      if e =? syscall.ERROR_FILE_NOT_FOUND then ((false, None), w1)
      else ((false, Some (Errno e)), w1)
  | Some e => ((false, Some e), w1)
  | None =>
      let '(_, w2) := syscall.CloseHandle handle c Caller w1 in
      ((true, None), w2)
  end.

End winmutex.

(** * Vocabulary of the properties *)

Import winmutex.

(** The executor reference is set and the executor has not been closed. *)
Definition thread_open (m : Mutex) : Prop :=
  exists th, thread m = Some th /\ lockedthread.cmds th = true.

(** An open mutex: executor and handle are both valid. *)
Definition mutex_open (m : Mutex) : Prop :=
  thread_open m /\ handle m <> 0.

(** The three wait outcomes the platform defines besides failure.  The
    signaled event is [WAIT_OBJECT_0 = 0]. *)
Definition signaled (r : syscall.WaitReply) : Prop :=
  syscall.event r = 0 /\ syscall.werr r = None.
Definition timed_out (r : syscall.WaitReply) : Prop :=
  syscall.event r = synchapi.WaitTimeout /\ syscall.werr r = None.
Definition abandoned (r : syscall.WaitReply) : Prop :=
  syscall.event r = synchapi.WaitAbandoned /\ syscall.werr r = None.

(** A small world and an open mutex in it, used to run the code. *)
Definition w0 : World := mkWorld {[ 0%nat ]} {[ 4 ]} [].
Definition th0 : lockedthread.Thread := lockedthread.mkThread 0 true true.
Definition m0 : Mutex := mkMutex "Global\M" (Some th0) 4 false.
Definition reply_abandoned : syscall.WaitReply :=
  syscall.mkWait synchapi.WaitAbandoned None.

(** The claim as the specification words it: every wait outcome other than
    signaled (for TryLock: other than signaled and timed out) makes the call
    panic, the abandoned outcome included. *)
Definition non_signaled_wait_is_fatal : Prop :=
  forall (r : syscall.WaitReply) (m : Mutex) (w : World),
    mutex_open m ->
    (~ signaled r -> exists p m' w', Lock r m w = Panics p m' w') /\
    (~ signaled r -> ~ timed_out r ->
       exists p m' w', TryLock r m w = Panics p m' w').

(** The Win32 contract of [CreateMutexW]: the return value is null exactly
    when the call failed, and then the last-error code says why; a code of
    0 or [ERROR_ALREADY_EXISTS] comes with a handle. *)
Definition create_reply_contract (k : SyscallReply) : Prop :=
  r0 k = 0 <->
  (lasterr k <> 0 /\ lasterr k <> syscall.ERROR_ALREADY_EXISTS).

(** The create-or-open call fails: it reports an error, on whatever thread
    and in whatever world it is made. *)
Definition create_fails (name : string) (k : SyscallReply) (e : error) : Prop :=
  forall on w, exists h ex w',
    synchapi.CreateMutex name false k on w = ((h, ex, Some e), w').

(** What [ReleaseMutex] reports for a kernel reply. *)
Definition released (k : SyscallReply) : bool := negb (r0 k =? 0).
Definition release_error (k : SyscallReply) : option error :=
  if lasterr k =? 0 then None else Some (Errno (lasterr k)).

(** [m0] closed while unlocked, with both native calls succeeding. *)
Definition m0_closed : Mutex := mkMutex "Global\M" None 0 false.
Definition w0_closed : World :=
  log (ThreadExit 0)
    (set_live (live w0 ∖ {[0%nat]})
       (set_handles (handles w0 ∖ {[4]})
          (log (CallCloseHandle (Pinned 0) 4) w0))).

(** [Close] called once for every pair of native replies in [rs], in order;
    the returned errors are collected. *)
Fixpoint Close_repeatedly (rs : list (SyscallReply * option error))
    (m : Mutex) (w : World) : Outcome (list (option error)) :=
  match rs with
  | [] => Returns [] m w
  | (k, c) :: rs' =>
      match Close k c m w with
      | Panics p m' w' => Panics p m' w'
      | Returns err m' w' =>
          match Close_repeatedly rs' m' w' with
          | Panics p m'' w'' => Panics p m'' w''
          | Returns errs m'' w'' => Returns (err :: errs) m'' w''
          end
      end
  end.

Definition not_found : error := Errno syscall.ERROR_FILE_NOT_FOUND.

(** The instance after a call, whether the call returned or panicked (a
    caller may recover from the panic and go on using the instance). *)
Definition after {A : Type} (o : Outcome A) : Mutex :=
  match o with
  | Returns _ m _ => m
  | Panics _ m _ => m
  end.

(** The states a mutex made by [New(n)] can be in: [New] succeeded, with a
    kernel reply satisfying [P], and then any public method was called any
    number of times, in any world and with any native replies. *)
Inductive reachable (P : SyscallReply -> Prop) (n : string) : Mutex -> Prop :=
| reach_New k w m w' :
    P k -> New n k w = NewReturns (Some m) None w' -> reachable P n m
| reach_Lock r m w :
    reachable P n m -> reachable P n (after (Lock r m w))
| reach_TryLock r m w :
    reachable P n m -> reachable P n (after (TryLock r m w))
| reach_Unlock k m w :
    reachable P n m -> reachable P n (after (Unlock k m w))
| reach_Close k c m w :
    reachable P n m -> reachable P n (after (Close k c m w)).

(** [locked] implies a non-zero handle and a non-nil executor; handle and
    executor are valid together or torn down together; an executor that is
    referenced has not been closed. *)
Definition Inv (m : Mutex) : Prop :=
  (locked m = true -> handle m <> 0 /\ thread m <> None) /\
  (handle m <> 0 <-> thread m <> None) /\
  (forall th, thread m = Some th -> lockedthread.cmds th = true).

Definition w_empty : World := mkWorld ∅ ∅ [].

(** The world after a call, whether the call returned or panicked. *)
Definition world_after {A : Type} (o : Outcome A) : World :=
  match o with
  | Returns _ _ w => w
  | Panics _ _ w => w
  end.

(** One method call on an instance, with the native replies it may need. *)
Inductive Call : Type :=
| DoLock (r : syscall.WaitReply)
| DoTryLock (r : syscall.WaitReply)
| DoUnlock (k : SyscallReply)
| DoClose (k : SyscallReply) (c : option error).

(** The instance and the world after one call; a panic is recovered from
    and the program goes on. *)
Definition call (c : Call) (m : Mutex) (w : World) : Mutex * World :=
  match c with
  | DoLock r => (after (Lock r m w), world_after (Lock r m w))
  | DoTryLock r => (after (TryLock r m w), world_after (TryLock r m w))
  | DoUnlock k => (after (Unlock k m w), world_after (Unlock k m w))
  | DoClose k c => (after (Close k c m w), world_after (Close k c m w))
  end.

(** A sequence of calls on the same instance, one after the other. *)
Fixpoint calls (cs : list Call) (m : Mutex) (w : World) : Mutex * World :=
  match cs with
  | [] => (m, w)
  | c :: cs' => let '(m', w') := call c m w in calls cs' m' w'
  end.

(** The event belongs to the pinned thread [t]: it is the start or the exit
    of that thread, or a native call made on it. *)
Definition on_pinned (t : nat) (ev : Event) : Prop :=
  match ev with
  | ThreadStart t' | ThreadExit t' => t' = t
  | CallCreateMutex on _ _ | CallOpenMutex on _ | CallWait on _ _
  | CallReleaseMutex on _ | CallCloseHandle on _ => on = Pinned t
  end.

(** The event is a native call made on the caller's own thread. *)
Definition on_caller (ev : Event) : Prop :=
  match ev with
  | ThreadStart _ | ThreadExit _ => False
  | CallCreateMutex on _ _ | CallOpenMutex on _ | CallWait on _ _
  | CallReleaseMutex on _ | CallCloseHandle on _ => on = Caller
  end.

(** The Win32 contract of [OpenMutexW]: the return value is null exactly
    when a last-error code is set. *)
Definition open_reply_contract (k : SyscallReply) : Prop :=
  r0 k = 0 <-> lasterr k <> 0.

(** The name passes the checks made before the native call: it is short
    enough and, unless empty, holds no NUL byte. *)
Definition name_ok (name : string) : Prop :=
  synchapi.too_long name = false /\ synchapi.utf16Name name = None.

(** A name of 259 bytes, and a short name that holds a NUL byte. *)
Definition long_name : string :=
  String.string_of_list_ascii (repeat (Ascii.ascii_of_nat 97) 259).
Definition nul_name : string :=
  String (Ascii.ascii_of_nat 97) (String (Ascii.ascii_of_nat 0) EmptyString).

(** The instance differs from [m] in [locked] at most, and the world from
    [w] in its trace at most. *)
Definition frame (m m' : Mutex) (w w' : World) : Prop :=
  name m' = name m /\ thread m' = thread m /\ handle m' = handle m /\
  live w' = live w /\ handles w' = handles w.

(** The instance owns the pinned thread [t], started on top of the running
    threads [L]: while the executor is referenced it is that open thread and
    [t] runs beside [L]; once the reference is nil only [L] runs. *)
Definition owns (t : nat) (L : gset nat) (m : Mutex) (w : World) : Prop :=
  match thread m with
  | Some th => th = lockedthread.mkThread t true true /\ live w = L ∪ {[t]}
  | None => live w = L
  end.

(** * Properties *)

Lemma m0_open : mutex_open m0.
Proof. split; [exists th0; split; reflexivity | discriminate]. Qed.

(** ** Lock and TryLock: which wait outcomes are fatal *)

Lemma Lock_open (r : syscall.WaitReply) (m : Mutex) (w : World) th :
  thread m = Some th -> lockedthread.cmds th = true ->
  Lock r m w =
    let w' := log (CallWait (Pinned (lockedthread.tid th)) (handle m) syscall.INFINITE) w in
    match syscall.werr r with
    | Some e => Panics (PanicError (mutexWaitError (name m) e)) m w'
    | None => Returns tt (set_locked true m) w'
    end.
Proof.
  intros Ht Hc. unfold Lock, lockedthread.Run. rewrite Ht, Hc. simpl.
  destruct (syscall.werr r); reflexivity.
Qed.

Lemma TryLock_open (r : syscall.WaitReply) (m : Mutex) (w : World) th :
  thread m = Some th -> lockedthread.cmds th = true ->
  TryLock r m w =
    let w' := log (CallWait (Pinned (lockedthread.tid th)) (handle m) 0) w in
    match syscall.werr r with
    | Some e => Panics (PanicError (mutexWaitError (name m) e)) m w'
    | None =>
        if syscall.event r =? synchapi.WaitTimeout then Returns false m w'
        else Returns true (set_locked true m) w'
    end.
Proof.
  intros Ht Hc. unfold TryLock, lockedthread.Run. rewrite Ht, Hc. simpl.
  destruct (syscall.werr r); reflexivity.
Qed.

Lemma Lock_panics_unchanged (r : syscall.WaitReply) (m : Mutex) (w : World) p m' w' :
  Lock r m w = Panics p m' w' -> m' = m.
Proof.
  unfold Lock, lockedthread.Run.
  destruct (thread m) as [th|]; [destruct (lockedthread.cmds th); simpl|];
    try destruct (syscall.werr r); congruence.
Qed.

Lemma TryLock_panics_unchanged (r : syscall.WaitReply) (m : Mutex) (w : World) p m' w' :
  TryLock r m w = Panics p m' w' -> m' = m.
Proof.
  unfold TryLock, lockedthread.Run.
  destruct (thread m) as [th|]; [destruct (lockedthread.cmds th); simpl|];
    try destruct (syscall.werr r);
    try destruct (syscall.event r =? synchapi.WaitTimeout); congruence.
Qed.

(** An abandoned wait comes back without an error: [Lock] never looks at the
    event and [TryLock] compares it with [WaitTimeout] only, so both take the
    mutex as acquired. *)
Lemma abandoned_wait_acquires :
  abandoned reply_abandoned /\
  ~ signaled reply_abandoned /\ ~ timed_out reply_abandoned /\
  Lock reply_abandoned m0 w0 =
    Returns tt (set_locked true m0)
      (log (CallWait (Pinned 0) 4 syscall.INFINITE) w0) /\
  TryLock reply_abandoned m0 w0 =
    Returns true (set_locked true m0) (log (CallWait (Pinned 0) 4 0) w0).
Proof.
  repeat split; try reflexivity.
  - intros [H _]; discriminate H.
  - intros [H _]; discriminate H.
Qed.

(** C1, as stated, fails: on the abandoned outcome [Lock] returns normally
    with [locked = true]. *)
Lemma C1_abandoned_is_not_fatal : ~ non_signaled_wait_is_fatal.
Proof.
  intros claim.
  destruct abandoned_wait_acquires as (_ & Hns & _ & HL & _).
  destruct (claim reply_abandoned m0 w0 m0_open) as [HLock _].
  destruct (HLock Hns) as (p & m' & w' & Hp).
  rewrite HL in Hp. discriminate Hp.
Qed.

(** C1, amended: a wait that reports an error is fatal for [Lock] and
    [TryLock] on every mutex, and the panic leaves the instance as it was
    (so [locked] is not set); on a mutex whose executor is open a wait that
    reports no error is never fatal: [Lock] returns with [locked = true]
    whatever the event, and [TryLock] returns [false] without a state change
    on the timed-out event and otherwise returns [true] with
    [locked = true]. *)
Theorem C1_wait_error_is_fatal (r : syscall.WaitReply) (m : Mutex) (w : World) :
  (syscall.werr r <> None ->
     (exists p w', Lock r m w = Panics p m w') /\
     (exists p w', TryLock r m w = Panics p m w')) /\
  (thread_open m -> syscall.werr r = None ->
     (exists w', Lock r m w = Returns tt (set_locked true m) w') /\
     (exists w', TryLock r m w =
        if syscall.event r =? synchapi.WaitTimeout then Returns false m w'
        else Returns true (set_locked true m) w')).
Proof.
  split.
  - intros Herr.
    destruct (thread m) as [th|] eqn:Ht.
    + destruct (lockedthread.cmds th) eqn:Hc.
      * rewrite (Lock_open r m w th Ht Hc), (TryLock_open r m w th Ht Hc).
        destruct (syscall.werr r) as [e|]; [|congruence].
        simpl. split; eauto.
      * unfold Lock, TryLock, lockedthread.Run. rewrite Ht, Hc. split; eauto.
    + unfold Lock, TryLock. rewrite Ht. split; eauto.
  - intros (th & Ht & Hc) Hnone.
    rewrite (Lock_open r m w th Ht Hc), (TryLock_open r m w th Ht Hc), Hnone.
    simpl. split; eauto.
Qed.

Lemma C1_wait_error_is_fatal_witness :
  ((exists p w', Lock (syscall.mkWait 0xFFFFFFFF (Some (Errno 6))) m0 w0 = Panics p m0 w') /\
   (exists p w', TryLock (syscall.mkWait 0xFFFFFFFF (Some (Errno 6))) m0 w0 = Panics p m0 w')) /\
  ((exists w', Lock reply_abandoned m0 w0 = Returns tt (set_locked true m0) w') /\
   (exists w', TryLock reply_abandoned m0 w0 = Returns true (set_locked true m0) w')).
Proof.
  split.
  - apply (C1_wait_error_is_fatal (syscall.mkWait 0xFFFFFFFF (Some (Errno 6))) m0 w0).
    discriminate.
  - apply (C1_wait_error_is_fatal reply_abandoned m0 w0).
    + exists th0. split; reflexivity.
    + reflexivity.
Defined.

(** ** New: construction failure *)

Lemma fresh_thread_roundtrip (s : gset nat) :
  (s ∪ {[fresh s]}) ∖ {[fresh s]} = s.
Proof.
  pose proof (is_fresh s) as Hfresh.
  apply set_eq. intros x.
  rewrite elem_of_difference, elem_of_union, elem_of_singleton.
  split; [tauto | intros Hx; split; [tauto | congruence]].
Qed.

Lemma handle_opened_null (w : World) : handle_opened 0 w = w.
Proof. reflexivity. Qed.

Lemma CreateMutex_cases (name : string) (k : SyscallReply) (on : OSThread) (w : World) :
  synchapi.CreateMutex name false k on w =
    if synchapi.too_long name
    then ((0, false, Some (synchapi.create_too_long_error name)), w)
    else match synchapi.utf16Name name with
         | Some err => ((0, false, Some err), w)
         | None =>
             let w' := handle_opened (r0 k) (log (CallCreateMutex on name false) w) in
             if lasterr k =? syscall.ERROR_ALREADY_EXISTS then ((r0 k, true, None), w')
             else if lasterr k =? 0 then ((r0 k, false, None), w')
             else ((r0 k, false, Some (Errno (lasterr k))), w')
         end.
Proof. reflexivity. Qed.

(** C2: when the create-or-open call fails, [New] returns a nil mutex and
    the native error wrapped in a non-nil error; the executor thread it
    started has exited again and the kernel holds no new handle, so the
    running threads and the open handles are what they were before. *)
Theorem C2_New_failure_releases_everything
    (name : string) (k : SyscallReply) (e : error) (w : World) :
  create_reply_contract k ->
  create_fails name k e ->
  exists w',
    New name k w = NewReturns None (Some (mutexCreateError name e)) w' /\
    live w' = live w /\
    handles w' = handles w.
Proof.
  intros Hk Hfail.
  destruct (Hfail (Pinned (fresh (live w)))
              (log (ThreadStart (fresh (live w)))
                 (set_live (live w ∪ {[fresh (live w)]}) w)))
    as (h & ex & w1 & Hcreate).
  unfold New, lockedthread.New, lockedthread.Run. simpl.
  rewrite Hcreate. simpl.
  eexists. split; [reflexivity|]. simpl.
  rewrite CreateMutex_cases in Hcreate.
  destruct (synchapi.too_long name).
  { inversion Hcreate; subst. simpl.
    split; [apply fresh_thread_roundtrip | reflexivity]. }
  destruct (synchapi.utf16Name name).
  { inversion Hcreate; subst. simpl.
    split; [apply fresh_thread_roundtrip | reflexivity]. }
  simpl in Hcreate.
  destruct (lasterr k =? syscall.ERROR_ALREADY_EXISTS) eqn:Hex; [discriminate|].
  destruct (lasterr k =? 0) eqn:Hz; [discriminate|].
  apply Z.eqb_neq in Hex, Hz.
  assert (Hnull : r0 k = 0) by (apply Hk; split; assumption).
  rewrite Hnull in Hcreate. rewrite handle_opened_null in Hcreate.
  inversion Hcreate; subst. simpl.
  split; [apply fresh_thread_roundtrip | reflexivity].
Qed.

(** The bad name of the package's test, a bare backslash, refused by the
    kernel with [ERROR_INVALID_NAME = 123]. *)
Lemma C2_New_failure_releases_everything_witness :
  exists w',
    New "\" (mkReply 0 123) w0 =
      NewReturns None (Some (mutexCreateError "\" (Errno 123))) w' /\
    live w' = live w0 /\
    handles w' = handles w0.
Proof.
  apply (C2_New_failure_releases_everything "\" (mkReply 0 123) (Errno 123) w0).
  - unfold create_reply_contract, syscall.ERROR_ALREADY_EXISTS. simpl. lia.
  - intros on w. do 3 eexists. reflexivity.
Defined.

(** ** Close *)

Lemma ReleaseMutex_reports (h : Z) (k : SyscallReply) (on : OSThread) (w : World) :
  synchapi.ReleaseMutex h k on w =
    ((released k, release_error k), log (CallReleaseMutex on h) w).
Proof. reflexivity. Qed.

Lemma Close_closed (k : SyscallReply) (c : option error) (m : Mutex) (w : World) :
  thread m = None -> Close k c m w = Returns None m w.
Proof. intros Ht. unfold Close. rewrite Ht. reflexivity. Qed.

Lemma Close_returns_closed (k : SyscallReply) (c : option error)
    (m : Mutex) (w : World) err m' w' :
  Close k c m w = Returns err m' w' -> thread m' = None.
Proof.
  unfold Close, lockedthread.Run.
  destruct (thread m) as [th|] eqn:Ht.
  - destruct (handle m =? 0).
    + destruct (lockedthread.Close th w) as [[e3 t3] w3].
      intros H; inversion H; reflexivity.
    + destruct (lockedthread.cmds th); [|discriminate].
      destruct (close_on_thread m k c (Pinned (lockedthread.tid th)) w)
        as [[e1 e2] w1].
      destruct (lockedthread.Close th w1) as [[e3 t3] w3].
      intros H; inversion H; reflexivity.
  - intros H; inversion H; subst; assumption.
Qed.

(** C3: once [Close] has returned, [Lock] and [TryLock] panic with their
    closed-mutex message and [Unlock] panics too; none of them returns, and
    none changes the instance or makes a native call. *)
Theorem C3_use_after_close_panics
    (k : SyscallReply) (c : option error) (m : Mutex) (w : World) err m' w' :
  Close k c m w = Returns err m' w' ->
  (forall r, Lock r m' w' = Panics lock_closed m' w') /\
  (forall r, TryLock r m' w' = Panics trylock_closed m' w') /\
  (forall k', exists p, Unlock k' m' w' = Panics p m' w').
Proof.
  intros Hclose. apply Close_returns_closed in Hclose.
  repeat split; intros.
  - unfold Lock. rewrite Hclose. reflexivity.
  - unfold TryLock. rewrite Hclose. reflexivity.
  - unfold Unlock, lockedthread.Run. rewrite Hclose.
    destruct (locked m'); simpl; eauto.
Qed.

Lemma Close_m0 : Close (mkReply 1 0) None m0 w0 = Returns None m0_closed w0_closed.
Proof. reflexivity. Qed.

Lemma C3_use_after_close_panics_witness :
  (forall r, Lock r m0_closed w0_closed = Panics lock_closed m0_closed w0_closed) /\
  (forall r, TryLock r m0_closed w0_closed = Panics trylock_closed m0_closed w0_closed) /\
  (forall k', exists p, Unlock k' m0_closed w0_closed = Panics p m0_closed w0_closed).
Proof.
  apply (C3_use_after_close_panics (mkReply 1 0) None m0 w0 None).
  reflexivity.
Defined.

Lemma Close_open (k : SyscallReply) (c : option error) (m : Mutex) (w : World) th :
  thread m = Some th -> lockedthread.cmds th = true -> handle m <> 0 ->
  exists w',
    Close k c m w =
      Returns
        (errors_Join [if locked m then release_error k else None; c; None])
        (mkMutex (name m) None 0 false) w' /\
    trace w' =
      trace w
      ++ (if locked m
          then [CallReleaseMutex (Pinned (lockedthread.tid th)) (handle m)]
          else [])
      ++ [CallCloseHandle (Pinned (lockedthread.tid th)) (handle m);
          ThreadExit (lockedthread.tid th)] /\
    live w' = live w ∖ {[lockedthread.tid th]}.
Proof.
  intros Ht Hc Hh. apply Z.eqb_neq in Hh.
  unfold Close, lockedthread.Run, lockedthread.Close, close_on_thread.
  rewrite Ht, Hh, Hc.
  destruct (locked m); destruct c as [e|]; simpl;
    eexists; (split; [reflexivity|]); (split; [|reflexivity]);
    simpl; rewrite <- ?app_assoc; auto.
Qed.

(** C4: closing an open mutex releases the native lock exactly when
    [locked] is set, then closes the handle, then stops the executor, all in
    that order and the native calls on the pinned thread; the result joins
    the release error, the handle-close error and the (always nil) executor
    error; afterwards [locked] is false, the handle is zero and the executor
    reference is nil, whatever the errors were. *)
Theorem C4_first_Close_tears_down
    (k : SyscallReply) (c : option error) (m : Mutex) (w : World) :
  mutex_open m ->
  exists th w',
    thread m = Some th /\
    Close k c m w =
      Returns
        (errors_Join [if locked m then release_error k else None; c; None])
        (mkMutex (name m) None 0 false) w' /\
    trace w' =
      trace w
      ++ (if locked m
          then [CallReleaseMutex (Pinned (lockedthread.tid th)) (handle m)]
          else [])
      ++ [CallCloseHandle (Pinned (lockedthread.tid th)) (handle m);
          ThreadExit (lockedthread.tid th)] /\
    live w' = live w ∖ {[lockedthread.tid th]}.
Proof.
  intros [(th & Ht & Hc) Hh].
  destruct (Close_open k c m w th Ht Hc Hh) as (w' & Hclose & Htrace & Hlive).
  exists th, w'. auto.
Qed.

Lemma C4_first_Close_tears_down_witness :
  exists th w',
    thread (set_locked true m0) = Some th /\
    Close (mkReply 1 0) (Some (Errno 6)) (set_locked true m0) w0 =
      Returns (Some (JoinError [Errno 6])) (mkMutex "Global\M" None 0 false) w' /\
    trace w' =
      [CallReleaseMutex (Pinned (lockedthread.tid th)) 4;
       CallCloseHandle (Pinned (lockedthread.tid th)) 4;
       ThreadExit (lockedthread.tid th)] /\
    live w' = live w0 ∖ {[lockedthread.tid th]}.
Proof.
  apply (C4_first_Close_tears_down (mkReply 1 0) (Some (Errno 6)) (set_locked true m0) w0).
  split; [exists th0; split; reflexivity | discriminate].
Defined.

Lemma Close_repeatedly_closed (rs : list (SyscallReply * option error))
    (m : Mutex) (w : World) :
  thread m = None ->
  Close_repeatedly rs m w = Returns (replicate (length rs) None) m w.
Proof.
  intros Ht. induction rs as [|[k c] rs IH]; simpl.
  - reflexivity.
  - rewrite (Close_closed k c m w Ht), IH. reflexivity.
Qed.

(** C5: after a first [Close] that returned, any number of further [Close]
    calls each return nil and leave the instance and the world, its trace
    of native calls included, exactly as they were; and [Thread.Close] on
    an executor already closed returns nil and changes nothing. *)
Theorem C5_Close_idempotent :
  (forall (k : SyscallReply) (c : option error) (m : Mutex) (w : World)
          err m' w',
     Close k c m w = Returns err m' w' ->
     forall rs : list (SyscallReply * option error),
       Close_repeatedly rs m' w' = Returns (replicate (length rs) None) m' w') /\
  (forall (t : lockedthread.Thread) (w : World),
     lockedthread.cmds t = false -> lockedthread.Close t w = (None, t, w)) /\
  (forall (t : lockedthread.Thread) (w : World),
     let '(err, t', w') := lockedthread.Close t w in
     err = None /\ lockedthread.cmds t' = false).
Proof.
  split; [|split].
  - intros k c m w err m' w' Hclose rs.
    apply Close_repeatedly_closed.
    exact (Close_returns_closed k c m w err m' w' Hclose).
  - intros t w Hc. unfold lockedthread.Close. rewrite Hc. reflexivity.
  - intros t w. unfold lockedthread.Close.
    destruct (lockedthread.cmds t) eqn:Hc; simpl; auto.
Qed.

(** Forty-seven more closes, as in the package's test, with replies that
    would report errors if a native call were made. *)
Lemma C5_Close_idempotent_witness :
  Close_repeatedly (replicate 47 (mkReply 0 6, Some (Errno 6))) m0_closed w0_closed =
    Returns (replicate 47 None) m0_closed w0_closed /\
  lockedthread.Close (lockedthread.mkThread 0 false false) w0_closed =
    (None, lockedthread.mkThread 0 false false, w0_closed).
Proof.
  split.
  - apply (proj1 C5_Close_idempotent (mkReply 1 0) None m0 w0 None m0_closed w0_closed).
    reflexivity.
  - apply (proj1 (proj2 C5_Close_idempotent)). reflexivity.
Defined.

(** ** Unlock *)

(** C6: [Unlock] panics with its usage message when [locked] is false; on
    a locked mutex with an open executor it panics when the release reports
    an error and when it reports that nothing was released, and it returns,
    with [locked] cleared, when the release reports success; and whenever
    [Unlock] returns, [locked] was set on entry, the release reported no
    error and [released = true], and [locked] is false afterwards. *)
Theorem C6_Unlock (k : SyscallReply) (m : Mutex) (w : World) :
  (locked m = false -> Unlock k m w = Panics unlock_not_locked m w) /\
  (locked m = true -> thread_open m ->
     (forall e, release_error k = Some e ->
        exists w', Unlock k m w =
          Panics (PanicError (WrapError "winmutex: Mutex.Unlock()" e)) m w') /\
     (release_error k = None -> released k = false ->
        exists w', Unlock k m w = Panics unlock_not_released m w') /\
     (release_error k = None -> released k = true ->
        exists w', Unlock k m w = Returns tt (set_locked false m) w')) /\
  (forall u m' w', Unlock k m w = Returns u m' w' ->
     locked m = true /\ release_error k = None /\ released k = true /\
     m' = set_locked false m /\ locked m' = false).
Proof.
  split; [|split].
  - intros Hl. unfold Unlock. rewrite Hl. reflexivity.
  - intros Hl (th & Ht & Hc).
    unfold Unlock, lockedthread.Run. rewrite Hl, Ht, Hc.
    rewrite ReleaseMutex_reports. cbn [negb].
    repeat split.
    + intros e He. rewrite He. eauto.
    + intros He Hr. rewrite He, Hr. simpl. eauto.
    + intros He Hr. rewrite He, Hr. simpl. eauto.
  - intros u m' w'. unfold Unlock, lockedthread.Run.
    destruct (locked m) eqn:Hl; cbn [negb]; [|discriminate].
    destruct (thread m) as [th|]; [|discriminate].
    destruct (lockedthread.cmds th); [|discriminate].
    rewrite ReleaseMutex_reports.
    destruct (release_error k); [discriminate|].
    destruct (released k); simpl; [|discriminate].
    intros H; inversion H; subst. auto.
Qed.

Lemma C6_Unlock_witness :
  Unlock (mkReply 1 0) m0 w0 = Panics unlock_not_locked m0 w0 /\
  (exists w', Unlock (mkReply 0 288) (set_locked true m0) w0 =
     Panics (PanicError (WrapError "winmutex: Mutex.Unlock()" (Errno 288)))
       (set_locked true m0) w') /\
  (exists w', Unlock (mkReply 0 0) (set_locked true m0) w0 =
     Panics unlock_not_released (set_locked true m0) w') /\
  (exists w', Unlock (mkReply 1 0) (set_locked true m0) w0 = Returns tt m0 w').
Proof.
  assert (Hopen : thread_open (set_locked true m0))
    by (exists th0; split; reflexivity).
  split; [|split; [|split]].
  - apply (proj1 (C6_Unlock (mkReply 1 0) m0 w0)). reflexivity.
  - apply (proj1 (proj2 (C6_Unlock (mkReply 0 288) (set_locked true m0) w0)) eq_refl Hopen).
    reflexivity.
  - apply (proj1 (proj2 (C6_Unlock (mkReply 0 0) (set_locked true m0) w0)) eq_refl Hopen);
      reflexivity.
  - apply (proj1 (proj2 (C6_Unlock (mkReply 1 0) (set_locked true m0) w0)) eq_refl Hopen);
      reflexivity.
Defined.

(** ** TryLock *)

(** C7: on an open mutex [TryLock] makes one native call, a wait with a
    timeout of zero on the instance's handle, on the pinned thread; it
    returns [true] with [locked] set when that wait reports the signaled
    event, and returns [false] with the instance unchanged when it reports
    the timed-out event. *)
Theorem C7_TryLock (r : syscall.WaitReply) (m : Mutex) (w : World) :
  mutex_open m ->
  exists th,
    thread m = Some th /\
    (signaled r ->
       TryLock r m w =
         Returns true (set_locked true m)
           (log (CallWait (Pinned (lockedthread.tid th)) (handle m) 0) w)) /\
    (timed_out r ->
       TryLock r m w =
         Returns false m
           (log (CallWait (Pinned (lockedthread.tid th)) (handle m) 0) w)).
Proof.
  intros [(th & Ht & Hc) _]. exists th. split; [exact Ht|].
  rewrite (TryLock_open r m w th Ht Hc).
  split; intros [Hev Herr]; rewrite Herr, Hev; reflexivity.
Qed.

Lemma C7_TryLock_witness :
  TryLock (syscall.mkWait 0 None) m0 w0 =
    Returns true (set_locked true m0) (log (CallWait (Pinned 0) 4 0) w0) /\
  TryLock (syscall.mkWait synchapi.WaitTimeout None) m0 w0 =
    Returns false m0 (log (CallWait (Pinned 0) 4 0) w0).
Proof.
  split.
  - destruct (C7_TryLock (syscall.mkWait 0 None) m0 w0 m0_open)
      as (th & Ht & Hsignaled & _).
    injection Ht as <-. apply Hsignaled. split; reflexivity.
  - destruct (C7_TryLock (syscall.mkWait synchapi.WaitTimeout None) m0 w0 m0_open)
      as (th & Ht & _ & Htimeout).
    injection Ht as <-. apply Htimeout. split; reflexivity.
Defined.

(** ** Exists *)

(** C8: with [(h, err)] what [OpenMutex] reports, [Exists] returns
    [(false, nil)] exactly when [err] is the not-found errno; it returns
    [(false, err)] for every other error; and when the open succeeds it
    returns [(true, nil)] after a [CloseHandle] call on the opened handle,
    the last native call of the trace. *)
Theorem C8_Exists (name : string) (k : SyscallReply) (c : option error)
    (w : World) (h : Z) (err : option error) (w1 : World) :
  synchapi.OpenMutex name k Caller w = ((h, err), w1) ->
  exists res w',
    Exists name k c w = (res, w') /\
    (res = (false, None) <-> err = Some not_found) /\
    (forall e, err = Some e -> e <> not_found ->
       res = (false, Some e) /\ w' = w1) /\
    (err = None ->
       res = (true, None) /\
       w' = snd (syscall.CloseHandle h c Caller w1) /\
       trace w' = trace w1 ++ [CallCloseHandle Caller h] /\
       (c = None -> h ∉ handles w')).
Proof.
  intros Hopen. unfold Exists. rewrite Hopen.
  destruct err as [e|].
  - destruct e as [n|msg|msg e'|es];
      try (do 2 eexists; split; [reflexivity|];
           split; [split; intros H; discriminate H|];
           split; [intros e0 He0 _; inversion He0; auto | discriminate]).
    destruct (n =? syscall.ERROR_FILE_NOT_FOUND) eqn:Hn.
    + apply Z.eqb_eq in Hn. subst n.
      do 2 eexists. split; [reflexivity|].
      split; [split; reflexivity|].
      split; [|discriminate].
      intros e0 He0 Hne. inversion He0; subst. contradiction Hne. reflexivity.
    + apply Z.eqb_neq in Hn.
      do 2 eexists. split; [reflexivity|].
      split; [split; intros H; [discriminate H | inversion H; contradiction]|].
      split; [intros e0 He0 _; inversion He0; auto | discriminate].
  - destruct c as [ce|]; simpl;
      do 2 eexists; (split; [reflexivity|]);
      (split; [split; intros H; discriminate H|]);
      (split; [intros e0 He0; discriminate He0|]);
      intros _; simpl; repeat (split; [reflexivity|]).
    + discriminate.
    + intros _ Hin. apply elem_of_difference in Hin as [_ Hn].
      apply Hn, elem_of_singleton. reflexivity.
Qed.

(** A name nobody has created: the kernel answers a null handle and
    [ERROR_FILE_NOT_FOUND]. *)
Lemma C8_Exists_witness :
  exists w',
    Exists "WinObj-WinMutex-Test-ShouldNotExist" (mkReply 0 2) None w0 =
      ((false, None), w').
Proof.
  destruct (C8_Exists "WinObj-WinMutex-Test-ShouldNotExist" (mkReply 0 2) None w0
              0 (Some not_found)
              (log (CallOpenMutex Caller "WinObj-WinMutex-Test-ShouldNotExist") w0)
              eq_refl)
    as (res & w' & Hres & Hiff & _).
  exists w'. rewrite Hres. f_equal. apply Hiff. reflexivity.
Defined.

(** ** The state invariant *)

Lemma New_cases (n : string) (k : SyscallReply) (w : World) :
  New n k w =
    let t := lockedthread.mkThread (fresh (live w)) true true in
    let w1 := log (ThreadStart (fresh (live w)))
                (set_live (live w ∪ {[fresh (live w)]}) w) in
    match synchapi.CreateMutex n false k (Pinned (fresh (live w))) w1 with
    | ((h, _, Some e), w2) =>
        NewReturns None (Some (mutexCreateError n e))
          (log (ThreadExit (fresh (live w)))
             (set_live (live w2 ∖ {[fresh (live w)]}) w2))
    | ((h, _, None), w2) =>
        NewReturns (Some (mkMutex n (Some t) h false)) None w2
    end.
Proof.
  unfold New, lockedthread.New, lockedthread.Run. cbn [lockedthread.cmds lockedthread.tid].
  destruct (synchapi.CreateMutex n false k (Pinned (fresh (live w))) _)
    as [[[h ex] [e|]] w2]; reflexivity.
Qed.

Lemma New_success (n : string) (k : SyscallReply) (w : World) m w' :
  New n k w = NewReturns (Some m) None w' ->
  m = mkMutex n (Some (lockedthread.mkThread (fresh (live w)) true true)) (r0 k) false /\
  (lasterr k = 0 \/ lasterr k = syscall.ERROR_ALREADY_EXISTS).
Proof.
  rewrite New_cases. cbv zeta. rewrite CreateMutex_cases.
  destruct (synchapi.too_long n); [discriminate|].
  destruct (synchapi.utf16Name n); [discriminate|].
  cbv zeta.
  destruct (lasterr k =? syscall.ERROR_ALREADY_EXISTS) eqn:Hex.
  - apply Z.eqb_eq in Hex. intros H; inversion H. auto.
  - destruct (lasterr k =? 0) eqn:Hz; [|discriminate].
    apply Z.eqb_eq in Hz. intros H; inversion H. auto.
Qed.

Lemma New_never_panics (n : string) (k : SyscallReply) (w : World) p w' :
  New n k w <> NewPanics p w'.
Proof.
  rewrite New_cases. cbv zeta.
  destruct (synchapi.CreateMutex n false k _ _) as [[[h ex] [e|]] w2]; discriminate.
Qed.

Lemma Inv_New (n : string) (k : SyscallReply) (w : World) m w' :
  create_reply_contract k ->
  New n k w = NewReturns (Some m) None w' -> Inv m.
Proof.
  intros Hk Hnew. apply New_success in Hnew as [-> Hcode].
  assert (Hh : r0 k <> 0).
  { intros Hz. apply Hk in Hz as [H0 Hex]. destruct Hcode; contradiction. }
  unfold Inv. simpl. split; [discriminate|]. split.
  - split; [discriminate | intros _; exact Hh].
  - intros th Hth. inversion Hth; subst. reflexivity.
Qed.

(** Outside the contract: a null handle with a last-error of 0 is taken by
    [CreateMutex] as a success ([OpenMutex] turns it into [EINVAL]), and
    [New] then returns an instance whose handle is zero. *)
Lemma New_null_handle_without_error :
  exists w',
    New "Global\M" (mkReply 0 0) w_empty =
      NewReturns (Some (mkMutex "Global\M" (Some th0) 0 false)) None w'.
Proof. eexists. reflexivity. Qed.

Lemma Inv_set_locked_false (m : Mutex) : Inv m -> Inv (set_locked false m).
Proof.
  intros (Hl & Hht & Hth). unfold Inv. simpl.
  split; [discriminate | split; assumption].
Qed.

Lemma Inv_set_locked_true (m : Mutex) :
  Inv m -> thread m <> None -> Inv (set_locked true m).
Proof.
  intros (Hl & Hht & Hth) Hsome. unfold Inv. simpl.
  split; [intros _; split; [apply Hht|]; assumption | split; assumption].
Qed.

Lemma Inv_Lock (r : syscall.WaitReply) (m : Mutex) (w : World) :
  Inv m -> Inv (after (Lock r m w)).
Proof.
  intros HI. unfold Lock, lockedthread.Run.
  destruct (thread m) as [th|] eqn:Ht; [|exact HI].
  destruct (lockedthread.cmds th); [|exact HI]. simpl.
  destruct (syscall.werr r); simpl; [exact HI|].
  apply Inv_set_locked_true; [exact HI | congruence].
Qed.

Lemma Inv_TryLock (r : syscall.WaitReply) (m : Mutex) (w : World) :
  Inv m -> Inv (after (TryLock r m w)).
Proof.
  intros HI. unfold TryLock, lockedthread.Run.
  destruct (thread m) as [th|] eqn:Ht; [|exact HI].
  destruct (lockedthread.cmds th); [|exact HI]. simpl.
  destruct (syscall.werr r); simpl; [exact HI|].
  destruct (syscall.event r =? synchapi.WaitTimeout); simpl; [exact HI|].
  apply Inv_set_locked_true; [exact HI | congruence].
Qed.

Lemma Inv_Unlock (k : SyscallReply) (m : Mutex) (w : World) :
  Inv m -> Inv (after (Unlock k m w)).
Proof.
  intros HI. unfold Unlock, lockedthread.Run.
  destruct (locked m); cbn [negb]; [|exact HI].
  destruct (thread m) as [th|]; [|exact HI].
  destruct (lockedthread.cmds th); [|exact HI].
  rewrite ReleaseMutex_reports.
  destruct (release_error k); [exact HI|].
  destruct (released k); cbn [negb]; [|exact HI].
  apply Inv_set_locked_false, HI.
Qed.

Lemma Inv_torn_down (n : string) : Inv (mkMutex n None 0 false).
Proof.
  unfold Inv. simpl. split; [discriminate|].
  split; [split; intros H; contradiction H; reflexivity | discriminate].
Qed.

Lemma Inv_Close (k : SyscallReply) (c : option error) (m : Mutex) (w : World) :
  Inv m -> Inv (after (Close k c m w)).
Proof.
  intros HI.
  destruct (thread m) as [th|] eqn:Ht.
  - destruct HI as (_ & Hht & Hth).
    assert (Hh : handle m <> 0) by (apply Hht; congruence).
    destruct (Close_open k c m w th Ht (Hth th Ht) Hh) as (w' & -> & _).
    apply Inv_torn_down.
  - rewrite Close_closed by assumption. exact HI.
Qed.

(** C9: [New] (given a kernel reply within the Win32 contract) establishes,
    and [Lock], [TryLock], [Unlock] and [Close] preserve, whether they return
    or panic, the invariant that [locked] implies a non-zero handle and a
    non-nil executor and that handle and executor are valid together or torn
    down together; [Name] is a function of the instance and changes nothing.
    Hence every reachable state satisfies it. *)
Theorem C9_invariant :
  (forall n k w m w',
     create_reply_contract k ->
     New n k w = NewReturns (Some m) None w' -> Inv m) /\
  (forall m, Inv m ->
     (forall r w, Inv (after (Lock r m w))) /\
     (forall r w, Inv (after (TryLock r m w))) /\
     (forall k w, Inv (after (Unlock k m w))) /\
     (forall k c w, Inv (after (Close k c m w)))) /\
  (forall n m, reachable create_reply_contract n m -> Inv m).
Proof.
  split; [|split].
  - exact Inv_New.
  - intros m HI. split; [|split; [|split]]; intros.
    + apply Inv_Lock, HI.
    + apply Inv_TryLock, HI.
    + apply Inv_Unlock, HI.
    + apply Inv_Close, HI.
  - intros n m Hreach.
    induction Hreach as [k w m w' Hk Hnew | r m w _ IH | r m w _ IH
                        | k m w _ IH | k c m w _ IH].
    + exact (Inv_New n k w m w' Hk Hnew).
    + apply Inv_Lock, IH.
    + apply Inv_TryLock, IH.
    + apply Inv_Unlock, IH.
    + apply Inv_Close, IH.
Qed.

Lemma New_m0 : New "Global\M" (mkReply 4 0) w_empty =
  NewReturns (Some m0) None
    (handle_opened 4
       (log (CallCreateMutex (Pinned 0) "Global\M" false)
          (log (ThreadStart 0) (set_live (live w_empty ∪ {[0%nat]}) w_empty)))).
Proof. reflexivity. Qed.

Lemma contract_reply_4_0 : create_reply_contract (mkReply 4 0).
Proof. unfold create_reply_contract, syscall.ERROR_ALREADY_EXISTS. simpl. lia. Qed.

Lemma m0_reachable (P : SyscallReply -> Prop) :
  P (mkReply 4 0) -> reachable P "Global\M" m0.
Proof. intros HP. exact (reach_New P _ _ _ _ _ HP New_m0). Qed.

(** New, Lock, Close. *)
Lemma C9_invariant_witness :
  Inv (after (Close (mkReply 1 0) None
                (after (Lock (syscall.mkWait 0 None) m0 w0)) w0)).
Proof.
  apply (proj2 (proj2 C9_invariant) "Global\M").
  apply reach_Close, reach_Lock, m0_reachable, contract_reply_4_0.
Defined.

(** ** Name *)

Lemma name_reachable (P : SyscallReply -> Prop) (n : string) (m : Mutex) :
  reachable P n m -> name m = n.
Proof.
  intros Hreach.
  induction Hreach as [k w m w' Hk Hnew | r m w _ IH | r m w _ IH
                      | k m w _ IH | k c m w _ IH].
  - apply New_success in Hnew as [-> _]. reflexivity.
  - rewrite <- IH. unfold Lock, lockedthread.Run.
    destruct (thread m) as [th|]; [|reflexivity].
    destruct (lockedthread.cmds th); [|reflexivity]. simpl.
    destruct (syscall.werr r); reflexivity.
  - rewrite <- IH. unfold TryLock, lockedthread.Run.
    destruct (thread m) as [th|]; [|reflexivity].
    destruct (lockedthread.cmds th); [|reflexivity]. simpl.
    destruct (syscall.werr r); [reflexivity|].
    destruct (syscall.event r =? synchapi.WaitTimeout); reflexivity.
  - rewrite <- IH. unfold Unlock, lockedthread.Run.
    destruct (locked m); cbn [negb]; [|reflexivity].
    destruct (thread m) as [th|]; [|reflexivity].
    destruct (lockedthread.cmds th); [|reflexivity].
    rewrite ReleaseMutex_reports.
    destruct (release_error k); [reflexivity|].
    destruct (released k); reflexivity.
  - rewrite <- IH. unfold Close, lockedthread.Run.
    destruct (thread m) as [th|]; [|reflexivity].
    destruct (handle m =? 0).
    + destruct (lockedthread.Close th w) as [[e3 t3] w3]. reflexivity.
    + destruct (lockedthread.cmds th); [|reflexivity].
      destruct (close_on_thread m k c _ w) as [[e1 e2] w1].
      destruct (lockedthread.Close th w1) as [[e3 t3] w3]. reflexivity.
Qed.

(** C10: [Name] is a total function of the instance alone (it takes no
    world and has no outcome but its string); in every state reachable from
    a successful [New(n)], whatever the kernel replied, it returns [n], also
    after [Close], which resets executor, handle and [locked] but leaves the
    name field alone. *)
Theorem C10_Name (P : SyscallReply -> Prop) (n : string) (m : Mutex) :
  reachable P n m ->
  Name m = n /\
  (forall k c w, Name (after (Close k c m w)) = n).
Proof.
  intros Hreach. split.
  - exact (name_reachable P n m Hreach).
  - intros k c w.
    exact (name_reachable P n _ (reach_Close P n k c m w Hreach)).
Qed.

Lemma C10_Name_witness :
  Name m0 = "Global\M" /\
  (forall k c w, Name (after (Close k c m0 w)) = "Global\M").
Proof.
  apply (C10_Name (fun _ => True) "Global\M" m0).
  apply m0_reachable. exact I.
Defined.

(** * Further properties of the code *)

(** ** lockedthread *)

(** X1: once a thread has been closed, [Run] panics with the closed-thread
    message and does not execute the function it was given, whatever state
    the thread was in before the close. *)
Theorem Thread_Run_after_Close {A : Type} (t : lockedthread.Thread) (w : World)
    (f : OSThread -> World -> A * World) :
  let '(_, t', w') := lockedthread.Close t w in
  lockedthread.Run (Some t') f w' = lockedthread.RunPanics lockedthread.run_closed.
Proof.
  unfold lockedthread.Close.
  destruct (lockedthread.cmds t) eqn:Hc; unfold lockedthread.Run; simpl.
  - reflexivity.
  - rewrite Hc. reflexivity.
Qed.

(** X2: a thread made by [New] and then closed gives its OS thread back:
    [Close] returns nil, the set of running pinned threads is what it was
    before [New], the thread's identifier was not in use, and the trace has
    gained the start and the exit of that thread. *)
Theorem Thread_New_then_Close (w : World) :
  let '(t, w1) := lockedthread.New w in
  let '(err, t', w2) := lockedthread.Close t w1 in
  err = None /\
  (lockedthread.tid t ∉ live w) /\
  live w1 = live w ∪ {[lockedthread.tid t]} /\
  live w2 = live w /\
  trace w2 = trace w ++ [ThreadStart (lockedthread.tid t); ThreadExit (lockedthread.tid t)].
Proof.
  unfold lockedthread.New, lockedthread.Close. simpl.
  split; [reflexivity|]. split; [apply is_fresh|]. split; [reflexivity|].
  split; [apply fresh_thread_roundtrip|].
  rewrite <- app_assoc. reflexivity.
Qed.

(** ** synchapi *)

Lemma too_long_length (name : string) :
  synchapi.too_long name = true <-> (259 <= String.length name)%nat.
Proof.
  unfold synchapi.too_long, syscall.MAX_PATH.
  rewrite Nat.leb_le. lia.
Qed.

Lemma CreateMutex_ok (name : string) (io : bool) (k : SyscallReply)
    (on : OSThread) (w : World) :
  name_ok name ->
  synchapi.CreateMutex name io k on w =
    let w' := handle_opened (r0 k) (log (CallCreateMutex on name io) w) in
    if lasterr k =? syscall.ERROR_ALREADY_EXISTS then ((r0 k, true, None), w')
    else if lasterr k =? 0 then ((r0 k, false, None), w')
    else ((r0 k, false, Some (Errno (lasterr k))), w').
Proof.
  intros [Hlen Hutf]. unfold synchapi.CreateMutex. rewrite Hlen, Hutf. reflexivity.
Qed.

Lemma OpenMutex_ok (name : string) (k : SyscallReply) (on : OSThread) (w : World) :
  name_ok name ->
  synchapi.OpenMutex name k on w =
    let e := if (r0 k =? 0) && (lasterr k =? 0) then syscall.EINVAL else lasterr k in
    ((r0 k, if e =? 0 then None else Some (Errno e)),
     handle_opened (r0 k) (log (CallOpenMutex on name) w)).
Proof.
  intros [Hlen Hutf]. unfold synchapi.OpenMutex. rewrite Hlen, Hutf. reflexivity.
Qed.

Lemma trace_handle_opened (h : Z) (w : World) : trace (handle_opened h w) = trace w.
Proof. unfold handle_opened. destruct (h =? 0); reflexivity. Qed.

Lemma live_handle_opened (h : Z) (w : World) : live (handle_opened h w) = live w.
Proof. unfold handle_opened. destruct (h =? 0); reflexivity. Qed.

(** X3: when [OpenMutex] reports no error the handle it returns is not
    null: a null return value with no last-error code is turned into
    [EINVAL].  The handle is then the kernel's return value, the last-error
    code was 0, the name had passed the checks, and the handle is in the
    process's table. *)
Theorem OpenMutex_nil_error_has_handle (name : string) (k : SyscallReply)
    (on : OSThread) (w : World) (h : Z) (w' : World) :
  synchapi.OpenMutex name k on w = ((h, None), w') ->
  h <> 0 /\ h = r0 k /\ lasterr k = 0 /\ name_ok name /\ h ∈ handles w'.
Proof.
  unfold synchapi.OpenMutex, name_ok.
  destruct (synchapi.too_long name) eqn:Hlen; [discriminate|].
  destruct (synchapi.utf16Name name) eqn:Hutf; [discriminate|].
  cbv zeta. intros H.
  destruct (r0 k =? 0) eqn:Hr; destruct (lasterr k =? 0) eqn:He;
    cbn [andb] in H; rewrite ?He in H; try discriminate H.
  apply Z.eqb_neq in Hr. apply Z.eqb_eq in He.
  inversion H; subst.
  repeat (split; [solve [auto]|]).
  unfold handle_opened. apply Z.eqb_neq in Hr. rewrite Hr. simpl.
  apply elem_of_union_r, elem_of_singleton. reflexivity.
Qed.

Lemma OpenMutex_nil_error_has_handle_witness :
  4 <> 0 /\ 4 = r0 (mkReply 4 0) /\ lasterr (mkReply 4 0) = 0 /\
  name_ok "Global\M" /\
  4 ∈ handles (handle_opened 4 (log (CallOpenMutex Caller "Global\M") w_empty)).
Proof.
  apply (OpenMutex_nil_error_has_handle "Global\M" (mkReply 4 0) Caller w_empty).
  reflexivity.
Defined.

(** X4: [CreateMutex] sets [openedExisting] exactly when the name passed
    the checks and the last-error code is [ERROR_ALREADY_EXISTS]; that code
    is never reported as an error, and the handle is then the kernel's
    return value.  Whenever the name passes the checks exactly one native
    call is made. *)
Theorem CreateMutex_openedExisting (name : string) (io : bool) (k : SyscallReply)
    (on : OSThread) (w : World) (h : Z) (ex : bool) (err : option error) (w' : World) :
  synchapi.CreateMutex name io k on w = ((h, ex, err), w') ->
  (ex = true <-> name_ok name /\ lasterr k = syscall.ERROR_ALREADY_EXISTS) /\
  (ex = true -> err = None /\ h = r0 k) /\
  (name_ok name -> trace w' = trace w ++ [CallCreateMutex on name io]).
Proof.
  unfold synchapi.CreateMutex, name_ok.
  destruct (synchapi.too_long name) eqn:Hlen.
  { intros H; inversion H; subst.
    split; [split; [discriminate | intros [[Hf _] _]; discriminate Hf]|].
    split; [discriminate | intros [Hf _]; discriminate Hf]. }
  destruct (synchapi.utf16Name name) eqn:Hutf.
  { intros H; inversion H; subst.
    split; [split; [discriminate | intros [[_ Hf] _]; discriminate Hf]|].
    split; [discriminate | intros [_ Hf]; discriminate Hf]. }
  cbv zeta.
  destruct (lasterr k =? syscall.ERROR_ALREADY_EXISTS) eqn:Hex.
  - apply Z.eqb_eq in Hex. intros H; inversion H; subst.
    rewrite trace_handle_opened. simpl.
    split; [split; auto|]. split; auto.
  - apply Z.eqb_neq in Hex.
    destruct (lasterr k =? 0); intros H; inversion H; subst;
      rewrite trace_handle_opened; simpl;
      (split; [split; [discriminate | intros [_ Hc]; contradiction]|]);
      (split; [discriminate | auto]).
Qed.

Lemma CreateMutex_openedExisting_witness :
  (true = true <-> name_ok "Global\M" /\ lasterr (mkReply 4 183) = syscall.ERROR_ALREADY_EXISTS) /\
  (true = true -> @None error = None /\ 4 = r0 (mkReply 4 183)) /\
  (name_ok "Global\M" ->
   trace (handle_opened 4 (log (CallCreateMutex (Pinned 0) "Global\M" false) w_empty)) =
     trace w_empty ++ [CallCreateMutex (Pinned 0) "Global\M" false]).
Proof.
  apply (CreateMutex_openedExisting "Global\M" false (mkReply 4 183) (Pinned 0) w_empty).
  reflexivity.
Defined.

(** ** Names refused before any native call *)

Lemma contains_NUL_nonempty (name : string) :
  syscall.contains_NUL name = true -> name <> EmptyString.
Proof. intros H ->. discriminate H. Qed.

Lemma New_rejected (n : string) (k : SyscallReply) (w : World) (e : error) :
  (forall io on w1, synchapi.CreateMutex n io k on w1 = ((0, false, Some e), w1)) ->
  exists w',
    New n k w = NewReturns None (Some (mutexCreateError n e)) w' /\
    live w' = live w /\
    trace w' = trace w ++ [ThreadStart (fresh (live w)); ThreadExit (fresh (live w))].
Proof.
  intros Hcreate. rewrite New_cases. cbv zeta. rewrite Hcreate.
  eexists. split; [reflexivity|]. simpl.
  split; [apply fresh_thread_roundtrip|].
  rewrite <- app_assoc. reflexivity.
Qed.

(** X5: a name of 259 bytes or more is refused by every entry point before
    any native call is made: [CreateMutex] and [OpenMutex] return a null
    handle and their length error in an unchanged world, [Exists] returns
    [false] with that error, and [New] returns nil with the error wrapped,
    having only started and stopped its executor. *)
Theorem over_long_name_rejected (name : string) (k : SyscallReply)
    (c : option error) (w : World) :
  (259 <= String.length name)%nat ->
  (forall io on,
     synchapi.CreateMutex name io k on w =
       ((0, false, Some (synchapi.create_too_long_error name)), w)) /\
  (forall on,
     synchapi.OpenMutex name k on w =
       ((0, Some (synchapi.open_too_long_error name)), w)) /\
  Exists name k c w = ((false, Some (synchapi.open_too_long_error name)), w) /\
  (exists w',
     New name k w =
       NewReturns None
         (Some (mutexCreateError name (synchapi.create_too_long_error name))) w' /\
     live w' = live w /\
     trace w' = trace w ++ [ThreadStart (fresh (live w)); ThreadExit (fresh (live w))]).
Proof.
  intros Hlen. apply too_long_length in Hlen.
  assert (Hc : forall io on w1,
             synchapi.CreateMutex name io k on w1 =
               ((0, false, Some (synchapi.create_too_long_error name)), w1)).
  { intros. unfold synchapi.CreateMutex. rewrite Hlen. reflexivity. }
  split; [intros; apply Hc|].
  split; [intros; unfold synchapi.OpenMutex; rewrite Hlen; reflexivity|].
  split; [unfold Exists, synchapi.OpenMutex; rewrite Hlen; reflexivity|].
  apply New_rejected, Hc.
Qed.

Lemma over_long_name_rejected_witness :
  Exists long_name (mkReply 4 0) None w0 =
    ((false, Some (synchapi.open_too_long_error long_name)), w0).
Proof.
  apply (over_long_name_rejected long_name (mkReply 4 0) None w0).
  vm_compute. lia.
Defined.

(** X6: a name that is short enough but holds a NUL byte is refused with
    [EINVAL] by every entry point before any native call is made; [Exists]
    reports that error rather than "does not exist". *)
Theorem NUL_name_rejected (name : string) (k : SyscallReply)
    (c : option error) (w : World) :
  (String.length name < 259)%nat ->
  syscall.contains_NUL name = true ->
  (forall io on,
     synchapi.CreateMutex name io k on w =
       ((0, false, Some (Errno syscall.EINVAL)), w)) /\
  (forall on,
     synchapi.OpenMutex name k on w = ((0, Some (Errno syscall.EINVAL)), w)) /\
  Exists name k c w = ((false, Some (Errno syscall.EINVAL)), w) /\
  (exists w',
     New name k w =
       NewReturns None (Some (mutexCreateError name (Errno syscall.EINVAL))) w' /\
     live w' = live w /\
     trace w' = trace w ++ [ThreadStart (fresh (live w)); ThreadExit (fresh (live w))]).
Proof.
  intros Hlen Hnul.
  assert (Hshort : synchapi.too_long name = false).
  { destruct (synchapi.too_long name) eqn:H; [|reflexivity].
    apply too_long_length in H. lia. }
  assert (Hutf : synchapi.utf16Name name = Some (Errno syscall.EINVAL)).
  { unfold synchapi.utf16Name, syscall.UTF16PtrFromString.
    destruct (decide (name = EmptyString)) as [He|_].
    - exfalso. exact (contains_NUL_nonempty name Hnul He).
    - rewrite Hnul. reflexivity. }
  assert (Hc : forall io on w1,
             synchapi.CreateMutex name io k on w1 =
               ((0, false, Some (Errno syscall.EINVAL)), w1)).
  { intros. unfold synchapi.CreateMutex. rewrite Hshort, Hutf. reflexivity. }
  split; [intros; apply Hc|].
  split; [intros; unfold synchapi.OpenMutex; rewrite Hshort, Hutf; reflexivity|].
  split; [unfold Exists, synchapi.OpenMutex; rewrite Hshort, Hutf; reflexivity|].
  apply New_rejected, Hc.
Qed.

Lemma NUL_name_rejected_witness :
  Exists nul_name (mkReply 0 2) None w0 = ((false, Some (Errno syscall.EINVAL)), w0).
Proof.
  apply (NUL_name_rejected nul_name (mkReply 0 2) None w0).
  - vm_compute. lia.
  - reflexivity.
Defined.

(** ** New *)

(** X7: [New] never panics, and it returns either a mutex with a nil error
    or a nil mutex with an error that wraps the one [CreateMutex] reported:
    with [(h, _, err)] what the create call reports on the thread [New] has
    just started, [New] returns the instance holding [h] and a nil error when
    [err] is nil, and nil with [err] wrapped, after stopping that thread,
    when it is not. *)
Theorem New_mutex_or_error (n : string) (k : SyscallReply) (w : World) :
  exists h ex err w2,
    synchapi.CreateMutex n false k (Pinned (fresh (live w)))
      (log (ThreadStart (fresh (live w)))
         (set_live (live w ∪ {[fresh (live w)]}) w)) = ((h, ex, err), w2) /\
    match err with
    | None =>
        New n k w =
          NewReturns
            (Some (mkMutex n
                     (Some (lockedthread.mkThread (fresh (live w)) true true))
                     h false))
            None w2
    | Some e =>
        New n k w =
          NewReturns None (Some (mutexCreateError n e))
            (log (ThreadExit (fresh (live w)))
               (set_live (live w2 ∖ {[fresh (live w)]}) w2))
    end.
Proof.
  rewrite New_cases. cbv zeta.
  destruct (synchapi.CreateMutex n false k _ _) as [[[h ex] [e|]] w2];
    exists h, ex; eexists; exists w2; split; reflexivity.
Qed.

(** X8: a mutex returned by [New] is unlocked, carries the name it was
    asked for and the handle the kernel returned, and owns an open executor
    whose thread was not running before and is running now; the name had
    passed the checks, the last-error code was 0 or [ERROR_ALREADY_EXISTS],
    and the create call, made without initial ownership, ran on the
    executor's thread right after that thread started. *)
Theorem New_success_state (n : string) (k : SyscallReply) (w : World)
    (m : Mutex) (w' : World) :
  New n k w = NewReturns (Some m) None w' ->
  m = mkMutex n (Some (lockedthread.mkThread (fresh (live w)) true true)) (r0 k) false /\
  name_ok n /\
  (lasterr k = 0 \/ lasterr k = syscall.ERROR_ALREADY_EXISTS) /\
  (fresh (live w) ∉ live w) /\
  live w' = live w ∪ {[fresh (live w)]} /\
  trace w' =
    trace w ++ [ThreadStart (fresh (live w));
                CallCreateMutex (Pinned (fresh (live w))) n false].
Proof.
  intros Hnew. pose proof (New_success n k w m w' Hnew) as [Hm Hcode].
  split; [exact Hm|].
  rewrite New_cases in Hnew. cbv zeta in Hnew.
  unfold synchapi.CreateMutex, name_ok in *.
  destruct (synchapi.too_long n); [discriminate|].
  destruct (synchapi.utf16Name n); [discriminate|].
  split; [auto|]. split; [exact Hcode|]. split; [apply is_fresh|].
  cbv zeta in Hnew.
  assert (Hw : w' = handle_opened (r0 k)
                      (log (CallCreateMutex (Pinned (fresh (live w))) n false)
                         (log (ThreadStart (fresh (live w)))
                            (set_live (live w ∪ {[fresh (live w)]}) w)))).
  { destruct (lasterr k =? syscall.ERROR_ALREADY_EXISTS);
      [|destruct (lasterr k =? 0)]; inversion Hnew; reflexivity. }
  rewrite Hw, live_handle_opened, trace_handle_opened. simpl.
  split; [reflexivity|]. rewrite <- app_assoc. reflexivity.
Qed.

Lemma New_success_state_witness :
  m0 = mkMutex "Global\M"
         (Some (lockedthread.mkThread (fresh (live w_empty)) true true))
         (r0 (mkReply 4 0)) false /\
  name_ok "Global\M".
Proof.
  destruct (New_success_state "Global\M" (mkReply 4 0) w_empty m0 _ New_m0)
    as (Hm & Hname & _).
  split; assumption.
Defined.

(** ** Lock, TryLock and Unlock *)

Lemma Unlock_open (k : SyscallReply) (m : Mutex) (w : World) th :
  locked m = true -> thread m = Some th -> lockedthread.cmds th = true ->
  Unlock k m w =
    let w' := log (CallReleaseMutex (Pinned (lockedthread.tid th)) (handle m)) w in
    match release_error k with
    | Some e => Panics (PanicError (WrapError "winmutex: Mutex.Unlock()" e)) m w'
    | None =>
        if released k then Returns tt (set_locked false m) w'
        else Panics unlock_not_released m w'
    end.
Proof.
  intros Hl Ht Hc. unfold Unlock, lockedthread.Run. rewrite Hl, Ht, Hc.
  rewrite ReleaseMutex_reports. cbn [negb].
  destruct (release_error k); [reflexivity|].
  destruct (released k); reflexivity.
Qed.

Lemma frame_refl (m : Mutex) (w : World) : frame m m w w.
Proof. unfold frame. auto. Qed.

Lemma frame_locked_log (b : bool) (ev : Event) (m : Mutex) (w : World) :
  frame m (set_locked b m) w (log ev w).
Proof. unfold frame. simpl. auto. Qed.

Lemma frame_log (ev : Event) (m : Mutex) (w : World) : frame m m w (log ev w).
Proof. unfold frame. simpl. auto. Qed.

Lemma frame_Lock (r : syscall.WaitReply) (m : Mutex) (w : World) :
  frame m (after (Lock r m w)) w (world_after (Lock r m w)).
Proof.
  unfold Lock, lockedthread.Run.
  destruct (thread m) as [th|]; [|apply frame_refl].
  destruct (lockedthread.cmds th); [|apply frame_refl]. simpl.
  destruct (syscall.werr r); simpl; [apply frame_log | apply frame_locked_log].
Qed.

Lemma frame_TryLock (r : syscall.WaitReply) (m : Mutex) (w : World) :
  frame m (after (TryLock r m w)) w (world_after (TryLock r m w)).
Proof.
  unfold TryLock, lockedthread.Run.
  destruct (thread m) as [th|]; [|apply frame_refl].
  destruct (lockedthread.cmds th); [|apply frame_refl]. simpl.
  destruct (syscall.werr r); simpl; [apply frame_log|].
  destruct (syscall.event r =? synchapi.WaitTimeout); simpl;
    [apply frame_log | apply frame_locked_log].
Qed.

Lemma frame_Unlock (k : SyscallReply) (m : Mutex) (w : World) :
  frame m (after (Unlock k m w)) w (world_after (Unlock k m w)).
Proof.
  unfold Unlock, lockedthread.Run.
  destruct (locked m); cbn [negb]; [|apply frame_refl].
  destruct (thread m) as [th|]; [|apply frame_refl].
  destruct (lockedthread.cmds th); [|apply frame_refl].
  rewrite ReleaseMutex_reports.
  destruct (release_error k); simpl; [apply frame_log|].
  destruct (released k); simpl; [apply frame_locked_log | apply frame_log].
Qed.

(** X9: [Lock], [TryLock] and [Unlock], whether they return or panic, never
    change the name, the handle or the executor of the instance, start or
    stop no thread and open or close no handle; of the instance they change
    [locked] at most. *)
Theorem locking_changes_locked_only (m : Mutex) (w : World) :
  (forall r, frame m (after (Lock r m w)) w (world_after (Lock r m w))) /\
  (forall r, frame m (after (TryLock r m w)) w (world_after (TryLock r m w))) /\
  (forall k, frame m (after (Unlock k m w)) w (world_after (Unlock k m w))).
Proof.
  split; [|split]; intros.
  - apply frame_Lock.
  - apply frame_TryLock.
  - apply frame_Unlock.
Qed.

Lemma set_locked_roundtrip (m : Mutex) :
  locked m = false -> set_locked false (set_locked true m) = m.
Proof. destruct m as [n t h l]. simpl. intros ->. reflexivity. Qed.

Lemma Lock_Unlock_returns (r : syscall.WaitReply) (k : SyscallReply)
    (m : Mutex) (w : World) (th : lockedthread.Thread) :
  thread m = Some th -> lockedthread.cmds th = true -> locked m = false ->
  syscall.werr r = None -> release_error k = None -> released k = true ->
  exists m1 w1 w2,
    Lock r m w = Returns tt m1 w1 /\ locked m1 = true /\
    Unlock k m1 w1 = Returns tt m w2 /\
    live w2 = live w /\ handles w2 = handles w /\
    trace w2 =
      trace w ++ [CallWait (Pinned (lockedthread.tid th)) (handle m) syscall.INFINITE;
                  CallReleaseMutex (Pinned (lockedthread.tid th)) (handle m)].
Proof.
  intros Ht Hc Hl Hr Hk Hrel.
  exists (set_locked true m). do 2 eexists.
  rewrite (Lock_open r m w th Ht Hc), Hr. cbv zeta.
  split; [reflexivity|]. split; [reflexivity|].
  rewrite (Unlock_open k (set_locked true m) _ th eq_refl Ht Hc), Hk, Hrel.
  cbv zeta. rewrite (set_locked_roundtrip m Hl).
  split; [reflexivity|]. simpl.
  rewrite <- app_assoc. auto.
Qed.

(** X10: on an unlocked mutex whose executor is open, a [Lock] whose wait
    reports no error followed by an [Unlock] whose release succeeds brings
    the instance back to the state it had, having made exactly two native
    calls, both on the pinned thread: an infinite wait and a release on the
    instance's handle. *)
Theorem Lock_then_Unlock (r : syscall.WaitReply) (k : SyscallReply)
    (m : Mutex) (w : World) (th : lockedthread.Thread) :
  thread m = Some th -> lockedthread.cmds th = true -> locked m = false ->
  syscall.werr r = None -> release_error k = None -> released k = true ->
  exists m1 w1 w2,
    Lock r m w = Returns tt m1 w1 /\ locked m1 = true /\
    Unlock k m1 w1 = Returns tt m w2 /\
    live w2 = live w /\ handles w2 = handles w /\
    trace w2 =
      trace w ++ [CallWait (Pinned (lockedthread.tid th)) (handle m) syscall.INFINITE;
                  CallReleaseMutex (Pinned (lockedthread.tid th)) (handle m)].
Proof.
  intros Ht Hc Hl Hr Hk Hrel.
  exact (Lock_Unlock_returns r k m w th Ht Hc Hl Hr Hk Hrel).
Qed.

Lemma Lock_then_Unlock_witness :
  exists m1 w1 w2,
    Lock (syscall.mkWait 0 None) m0 w0 = Returns tt m1 w1 /\ locked m1 = true /\
    Unlock (mkReply 1 0) m1 w1 = Returns tt m0 w2 /\
    live w2 = live w0 /\ handles w2 = handles w0 /\
    trace w2 =
      trace w0 ++ [CallWait (Pinned 0) 4 syscall.INFINITE;
                   CallReleaseMutex (Pinned 0) 4].
Proof.
  apply (Lock_then_Unlock (syscall.mkWait 0 None) (mkReply 1 0) m0 w0 th0);
    reflexivity.
Defined.

(** X11: [locked] is a flag, not a count.  After two [Lock] calls whose
    waits report no error, a single successful [Unlock] clears it, and a
    [Close] that follows makes no release call: it closes the handle and
    stops the executor only. *)
Theorem locked_is_a_flag (r1 r2 : syscall.WaitReply) (k kc : SyscallReply)
    (c : option error) (m : Mutex) (w : World) (th : lockedthread.Thread) :
  thread m = Some th -> lockedthread.cmds th = true -> handle m <> 0 ->
  syscall.werr r1 = None -> syscall.werr r2 = None ->
  release_error k = None -> released k = true ->
  exists m3 w3 w4,
    calls [DoLock r1; DoLock r2; DoUnlock k] m w = (m3, w3) /\
    locked m3 = false /\
    Close kc c m3 w3 =
      Returns (errors_Join [None; c; None]) (mkMutex (name m) None 0 false) w4 /\
    trace w4 =
      trace w ++ [CallWait (Pinned (lockedthread.tid th)) (handle m) syscall.INFINITE;
                  CallWait (Pinned (lockedthread.tid th)) (handle m) syscall.INFINITE;
                  CallReleaseMutex (Pinned (lockedthread.tid th)) (handle m);
                  CallCloseHandle (Pinned (lockedthread.tid th)) (handle m);
                  ThreadExit (lockedthread.tid th)].
Proof.
  intros Ht Hc Hh Hr1 Hr2 Hk Hrel.
  unfold calls, call.
  rewrite (Lock_open r1 m w th Ht Hc), Hr1. cbv zeta. cbn [after world_after].
  rewrite (Lock_open r2 (set_locked true m) _ th Ht Hc), Hr2.
  cbv zeta. cbn [after world_after].
  rewrite (Unlock_open k (set_locked true (set_locked true m)) _ th eq_refl Ht Hc),
    Hk, Hrel.
  cbv zeta. cbn [after world_after].
  destruct (Close_open kc c
              (set_locked false (set_locked true (set_locked true m)))
              (log (CallReleaseMutex (Pinned (lockedthread.tid th)) (handle m))
                 (log (CallWait (Pinned (lockedthread.tid th)) (handle m) syscall.INFINITE)
                    (log (CallWait (Pinned (lockedthread.tid th)) (handle m) syscall.INFINITE)
                       w)))
              th Ht Hc Hh) as (w4 & Hclose & Htrace & _).
  simpl in Hclose, Htrace.
  eexists _, _, w4. split; [reflexivity|]. split; [reflexivity|].
  split; [exact Hclose|].
  rewrite Htrace. rewrite <- !app_assoc. reflexivity.
Qed.

Lemma locked_is_a_flag_witness :
  exists m3 w3 w4,
    calls [DoLock (syscall.mkWait 0 None); DoLock (syscall.mkWait 0 None);
           DoUnlock (mkReply 1 0)] m0 w0 = (m3, w3) /\
    locked m3 = false /\
    Close (mkReply 1 0) None m3 w3 =
      Returns (errors_Join [None; None; None]) (mkMutex "Global\M" None 0 false) w4 /\
    trace w4 =
      trace w0 ++ [CallWait (Pinned 0) 4 syscall.INFINITE;
                   CallWait (Pinned 0) 4 syscall.INFINITE;
                   CallReleaseMutex (Pinned 0) 4;
                   CallCloseHandle (Pinned 0) 4;
                   ThreadExit 0].
Proof.
  apply (locked_is_a_flag (syscall.mkWait 0 None) (syscall.mkWait 0 None)
           (mkReply 1 0) (mkReply 1 0) None m0 w0 th0);
    solve [reflexivity | discriminate].
Defined.

(** ** Close, continued *)

Lemma errors_Join_nil (a c : option error) :
  errors_Join [a; c; None] = None <-> a = None /\ c = None.
Proof.
  unfold errors_Join. destruct a, c; simpl; split;
    try discriminate; try (intros [H1 H2]; discriminate); auto.
Qed.

(** X12: closing an open mutex returns a nil error exactly when
    [CloseHandle] reported none and, if the mutex was locked, the release
    reported none either.  Whether the release released anything plays no
    part: [Close] gives the same outcome whatever the return value of the
    release call. *)
Theorem Close_nil_iff (k : SyscallReply) (c : option error) (m : Mutex) (w : World) :
  mutex_open m ->
  (exists err m' w',
     Close k c m w = Returns err m' w' /\
     (err = None <-> (locked m = true -> release_error k = None) /\ c = None)) /\
  (forall r, Close (mkReply r (lasterr k)) c m w = Close k c m w).
Proof.
  intros [(th & Ht & Hc) Hh]. split.
  - destruct (Close_open k c m w th Ht Hc Hh) as (w' & Hclose & _).
    do 3 eexists. split; [exact Hclose|].
    rewrite errors_Join_nil.
    destruct (locked m); split; intros [H1 H2]; split; auto.
    discriminate.
  - intros r. unfold Close, close_on_thread, synchapi.ReleaseMutex. reflexivity.
Qed.

Lemma Close_nil_iff_witness :
  exists err m' w',
    Close (mkReply 0 288) None (set_locked true m0) w0 = Returns err m' w' /\
    (err = None <->
     (locked (set_locked true m0) = true -> release_error (mkReply 0 288) = None) /\
     @None error = None).
Proof.
  apply (Close_nil_iff (mkReply 0 288) None (set_locked true m0) w0).
  split; [exists th0; split; reflexivity | discriminate].
Defined.

(** X13: when the executor is referenced but the handle is zero, [Close]
    makes no native call at all: it only stops the executor (if that is
    still running), clears the reference and returns nil; [locked] and the
    open handles are left as they were. *)
Theorem Close_zero_handle (k : SyscallReply) (c : option error)
    (m : Mutex) (w : World) (th : lockedthread.Thread) :
  thread m = Some th -> handle m = 0 ->
  exists w',
    Close k c m w = Returns None (set_thread None m) w' /\
    handles w' = handles w /\
    trace w' =
      trace w ++ (if lockedthread.cmds th then [ThreadExit (lockedthread.tid th)] else []).
Proof.
  intros Ht Hh. unfold Close, lockedthread.Close. rewrite Ht, Hh. simpl.
  destruct (lockedthread.cmds th); eexists; (split; [reflexivity|]); simpl.
  - auto.
  - rewrite app_nil_r. auto.
Qed.

Lemma Close_zero_handle_witness :
  exists w',
    Close (mkReply 1 0) None (mkMutex "Global\M" (Some th0) 0 true) w0 =
      Returns None (mkMutex "Global\M" None 0 true) w' /\
    handles w' = handles w0 /\
    trace w' = trace w0 ++ [ThreadExit 0].
Proof.
  apply (Close_zero_handle (mkReply 1 0) None
           (mkMutex "Global\M" (Some th0) 0 true) w0 th0); reflexivity.
Defined.

(** ** Sequences of calls on one instance *)

Lemma owns_New (n : string) (k : SyscallReply) (w : World) m w1 :
  New n k w = NewReturns (Some m) None w1 ->
  owns (fresh (live w)) (live w) m w1 /\
  trace w1 = trace w ++ [ThreadStart (fresh (live w));
                         CallCreateMutex (Pinned (fresh (live w))) n false].
Proof.
  intros Hnew. pose proof (New_success n k w m w1 Hnew) as [Hm _].
  rewrite New_cases in Hnew. cbv zeta in Hnew.
  unfold synchapi.CreateMutex in Hnew.
  destruct (synchapi.too_long n); [discriminate|].
  destruct (synchapi.utf16Name n); [discriminate|].
  cbv zeta in Hnew.
  assert (Hw : w1 = handle_opened (r0 k)
                      (log (CallCreateMutex (Pinned (fresh (live w))) n false)
                         (log (ThreadStart (fresh (live w)))
                            (set_live (live w ∪ {[fresh (live w)]}) w)))).
  { destruct (lasterr k =? syscall.ERROR_ALREADY_EXISTS);
      [|destruct (lasterr k =? 0)]; inversion Hnew; reflexivity. }
  subst m. unfold owns. simpl.
  rewrite Hw, live_handle_opened, trace_handle_opened. simpl.
  rewrite <- app_assoc. auto.
Qed.

(** One call keeps the ownership and adds to the trace only events of the
    owned thread. *)
Lemma call_owns (t : nat) (L : gset nat) (c : Call) (m : Mutex) (w : World) :
  t ∉ L -> owns t L m w ->
  owns t L (call c m w).1 (call c m w).2 /\
  exists evs, trace (call c m w).2 = trace w ++ evs /\ Forall (on_pinned t) evs.
Proof.
  intros Hfresh Hown. unfold owns in *.
  destruct c as [r|r|k|k c]; simpl.
  - unfold Lock, lockedthread.Run.
    destruct (thread m) as [th|] eqn:Ht.
    + destruct Hown as [-> Hlive]. simpl.
      destruct (syscall.werr r); simpl; rewrite Ht;
        (split; [auto|]); eexists; (split; [reflexivity|]);
        repeat constructor.
    + simpl. rewrite Ht. split; [assumption|].
      exists []. rewrite app_nil_r. auto.
  - unfold TryLock, lockedthread.Run.
    destruct (thread m) as [th|] eqn:Ht.
    + destruct Hown as [-> Hlive]. simpl.
      destruct (syscall.werr r); [|destruct (syscall.event r =? synchapi.WaitTimeout)];
        simpl; rewrite Ht;
        (split; [auto|]); eexists; (split; [reflexivity|]);
        repeat constructor.
    + simpl. rewrite Ht. split; [assumption|].
      exists []. rewrite app_nil_r. auto.
  - unfold Unlock, lockedthread.Run.
    destruct (locked m); cbn [negb].
    + destruct (thread m) as [th|] eqn:Ht.
      * destruct Hown as [-> Hlive]. cbn [lockedthread.cmds lockedthread.tid].
        rewrite ReleaseMutex_reports.
        destruct (release_error k); [|destruct (released k)];
          simpl; rewrite Ht;
          (split; [auto|]); eexists; (split; [reflexivity|]);
          repeat constructor.
      * simpl. rewrite Ht. split; [assumption|].
        exists []. rewrite app_nil_r. auto.
    + simpl. split; [assumption|]. exists []. rewrite app_nil_r. auto.
  - unfold Close, lockedthread.Run, lockedthread.Close, close_on_thread.
    destruct (thread m) as [th|] eqn:Ht.
    + destruct Hown as [-> Hlive]. cbn [lockedthread.cmds lockedthread.tid].
      assert (Hback : (L ∪ {[t]}) ∖ {[t]} = L).
      { apply set_eq. intros x.
        rewrite elem_of_difference, elem_of_union, elem_of_singleton.
        split; [tauto | intros Hx; split; [tauto | congruence]]. }
      destruct (handle m =? 0).
      * simpl. rewrite Hlive, Hback. split; [reflexivity|].
        eexists. split; [reflexivity|]. repeat constructor.
      * rewrite ReleaseMutex_reports.
        destruct (locked m); destruct c as [e|]; simpl;
          rewrite Hlive, Hback; (split; [reflexivity|]);
          rewrite <- ?app_assoc; simpl;
          eexists; (split; [reflexivity|]); repeat constructor.
    + simpl. rewrite Ht. split; [assumption|].
      exists []. rewrite app_nil_r. auto.
Qed.

Lemma calls_owns (t : nat) (L : gset nat) (cs : list Call) (m : Mutex) (w : World) :
  t ∉ L -> owns t L m w ->
  owns t L (calls cs m w).1 (calls cs m w).2 /\
  exists evs, trace (calls cs m w).2 = trace w ++ evs /\ Forall (on_pinned t) evs.
Proof.
  intros Hfresh. revert m w.
  induction cs as [|c cs IH]; intros m w Hown; simpl.
  - split; [assumption|]. exists []. rewrite app_nil_r. auto.
  - destruct (call_owns t L c m w Hfresh Hown) as (Hown1 & evs1 & Htr1 & Hall1).
    destruct (call c m w) as [m1 w1]. simpl in *.
    destruct (IH m1 w1 Hown1) as (Hown2 & evs2 & Htr2 & Hall2).
    split; [assumption|].
    exists (evs1 ++ evs2). rewrite Htr2, Htr1, <- app_assoc.
    split; [reflexivity | apply Forall_app; auto].
Qed.

Lemma calls_app (cs1 cs2 : list Call) (m : Mutex) (w : World) :
  calls (cs1 ++ cs2) m w = calls cs2 (calls cs1 m w).1 (calls cs1 m w).2.
Proof.
  revert m w. induction cs1 as [|c1 cs1 IH]; intros m w; simpl; [reflexivity|].
  destruct (call c1 m w) as [m1 w1]. apply IH.
Qed.

(** X14: thread affinity.  Everything a mutex made by [New] adds to the
    trace, in [New] and in any sequence of [Lock], [TryLock], [Unlock] and
    [Close] calls with any native replies, happens on the one pinned thread
    that [New] started: each event is the start or the exit of that thread
    or a native call made on it. *)
Theorem native_calls_on_the_pinned_thread (n : string) (k : SyscallReply)
    (w : World) (m : Mutex) (w1 : World) (cs : list Call) :
  New n k w = NewReturns (Some m) None w1 ->
  exists evs,
    trace (calls cs m w1).2 = trace w ++ evs /\
    Forall (on_pinned (fresh (live w))) evs.
Proof.
  intros Hnew. destruct (owns_New n k w m w1 Hnew) as [Hown Htr].
  destruct (calls_owns _ _ cs m w1 (is_fresh (live w)) Hown) as (_ & evs & Htr2 & Hall).
  eexists. rewrite Htr2, Htr, <- app_assoc. split; [reflexivity|].
  apply Forall_app. split; [|exact Hall]. repeat constructor.
Qed.

Lemma native_calls_on_the_pinned_thread_witness :
  exists evs,
    trace (calls [DoLock (syscall.mkWait 0 None); DoUnlock (mkReply 1 0);
                  DoClose (mkReply 1 0) None] m0
             (handle_opened 4
                (log (CallCreateMutex (Pinned 0) "Global\M" false)
                   (log (ThreadStart 0)
                      (set_live (live w_empty ∪ {[0%nat]}) w_empty))))).2 =
      trace w_empty ++ evs /\
    Forall (on_pinned (fresh (live w_empty))) evs.
Proof.
  apply (native_calls_on_the_pinned_thread "Global\M" (mkReply 4 0) w_empty m0).
  exact New_m0.
Defined.

(** X15: however a mutex made by [New] has been used, with whatever native
    replies and panics on the way, [Close] returns rather than panics, and
    after it the executor reference is nil and the running pinned threads
    are exactly those that ran before [New]. *)
Theorem Close_gives_the_thread_back (n : string) (k : SyscallReply)
    (w : World) (m : Mutex) (w1 : World) (cs : list Call)
    (kc : SyscallReply) (c : option error) :
  New n k w = NewReturns (Some m) None w1 ->
  exists err m' w',
    Close kc c (calls cs m w1).1 (calls cs m w1).2 = Returns err m' w' /\
    thread m' = None /\
    live w' = live w.
Proof.
  intros Hnew. destruct (owns_New n k w m w1 Hnew) as [Hown _].
  destruct (calls_owns _ _ (cs ++ [DoClose kc c]) m w1 (is_fresh (live w)) Hown)
    as (Hfin & _).
  destruct (calls_owns _ _ cs m w1 (is_fresh (live w)) Hown) as (Hmid & _).
  rewrite calls_app in Hfin. simpl in Hfin.
  destruct (calls cs m w1) as [m2 w2]. simpl in *.
  unfold owns in Hmid.
  destruct (thread m2) as [th|] eqn:Ht.
  - destruct Hmid as [-> _].
    destruct (Close kc c m2 w2) as [err m' w'|p m' w'] eqn:Hclose.
    + pose proof (Close_returns_closed kc c m2 w2 err m' w' Hclose) as Hnil.
      simpl in Hfin. unfold owns in Hfin. rewrite Hnil in Hfin.
      exists err, m', w'. auto.
    + exfalso. revert Hclose.
      unfold Close, lockedthread.Run. rewrite Ht. simpl.
      destruct (handle m2 =? 0); [discriminate|].
      destruct (close_on_thread m2 kc c _ w2) as [[e1 e2] w3]. discriminate.
  - rewrite (Close_closed kc c m2 w2 Ht).
    exists None, m2, w2. auto.
Qed.

Lemma Close_gives_the_thread_back_witness :
  exists err m' w',
    Close (mkReply 0 6) (Some (Errno 6))
      (calls [DoLock (syscall.mkWait 0 None); DoUnlock (mkReply 0 288)] m0
         (handle_opened 4
            (log (CallCreateMutex (Pinned 0) "Global\M" false)
               (log (ThreadStart 0)
                  (set_live (live w_empty ∪ {[0%nat]}) w_empty))))).1
      (calls [DoLock (syscall.mkWait 0 None); DoUnlock (mkReply 0 288)] m0
         (handle_opened 4
            (log (CallCreateMutex (Pinned 0) "Global\M" false)
               (log (ThreadStart 0)
                  (set_live (live w_empty ∪ {[0%nat]}) w_empty))))).2
      = Returns err m' w' /\
    thread m' = None /\
    live w' = live w_empty.
Proof.
  apply (Close_gives_the_thread_back "Global\M" (mkReply 4 0) w_empty m0).
  exact New_m0.
Defined.

Lemma New_success_world (n : string) (k : SyscallReply) (w : World) m w1 :
  New n k w = NewReturns (Some m) None w1 ->
  w1 = handle_opened (r0 k)
         (log (CallCreateMutex (Pinned (fresh (live w))) n false)
            (log (ThreadStart (fresh (live w)))
               (set_live (live w ∪ {[fresh (live w)]}) w))).
Proof.
  intros Hnew. rewrite New_cases in Hnew. cbv zeta in Hnew.
  unfold synchapi.CreateMutex in Hnew.
  destruct (synchapi.too_long n); [discriminate|].
  destruct (synchapi.utf16Name n); [discriminate|].
  cbv zeta in Hnew.
  destruct (lasterr k =? syscall.ERROR_ALREADY_EXISTS);
    [|destruct (lasterr k =? 0)]; inversion Hnew; reflexivity.
Qed.

Lemma handle_roundtrip (s : gset Z) (h : Z) :
  h ∉ s -> (s ∪ {[h]}) ∖ {[h]} = s.
Proof.
  intros Hh. apply set_eq. intros x.
  rewrite elem_of_difference, elem_of_union, elem_of_singleton.
  split; [tauto | intros Hx; split; [tauto | congruence]].
Qed.

(** X16: the life cycle of the package's basic test.  When [New] succeeds
    with a handle that is not null and was not open before, the wait of
    [Lock] reports no error, the release of [Unlock] succeeds and
    [CloseHandle] succeeds, then [Close] returns nil, the running threads and
    the open handles are what they were before [New], and the trace has
    gained exactly: thread start, create, infinite wait, release, handle
    close, thread exit, the four native calls on the started thread. *)
Theorem New_Lock_Unlock_Close (n : string) (k : SyscallReply) (w : World)
    (m : Mutex) (w1 : World) (r : syscall.WaitReply) (ku kc : SyscallReply) :
  New n k w = NewReturns (Some m) None w1 ->
  r0 k <> 0 -> r0 k ∉ handles w ->
  syscall.werr r = None -> release_error ku = None -> released ku = true ->
  exists w2 w3,
    calls [DoLock r; DoUnlock ku] m w1 = (m, w2) /\
    Close kc None m w2 = Returns None (mkMutex n None 0 false) w3 /\
    live w3 = live w /\ handles w3 = handles w /\
    trace w3 =
      trace w ++ [ThreadStart (fresh (live w));
                  CallCreateMutex (Pinned (fresh (live w))) n false;
                  CallWait (Pinned (fresh (live w))) (r0 k) syscall.INFINITE;
                  CallReleaseMutex (Pinned (fresh (live w))) (r0 k);
                  CallCloseHandle (Pinned (fresh (live w))) (r0 k);
                  ThreadExit (fresh (live w))].
Proof.
  intros Hnew Hh Hfresh Hr Hku Hrel.
  pose proof (New_success_world n k w m w1 Hnew) as Hw1.
  apply New_success in Hnew as [Hm _].
  set (t := fresh (live w)) in *.
  set (th := lockedthread.mkThread t true true) in *.
  assert (Ht : thread m = Some th) by (subst m; reflexivity).
  assert (Hl : locked m = false) by (subst m; reflexivity).
  assert (Hhm : handle m = r0 k) by (subst m; reflexivity).
  assert (Hn : name m = n) by (subst m; reflexivity).
  destruct (Lock_Unlock_returns r ku m w1 th Ht eq_refl Hl Hr Hku Hrel)
    as (m1 & wl & w2 & HL & _ & HU & Hlive2 & Hhandles2 & Htrace2).
  assert (Hhm' : handle m <> 0) by (rewrite Hhm; exact Hh).
  destruct (Close_open kc None m w2 th Ht eq_refl Hhm')
    as (w3 & Hclose & Htrace3 & Hlive3).
  rewrite Hl, Hn in Hclose. rewrite Hl, Hhm in Htrace3. simpl in Htrace3.
  exists w2, w3.
  split; [unfold calls, call; rewrite HL; simpl; rewrite HU; reflexivity|].
  split; [exact Hclose|].
  assert (Hlive1 : live w1 = live w ∪ {[t]})
    by (rewrite Hw1, live_handle_opened; reflexivity).
  assert (Hhandles1 : handles w1 = handles w ∪ {[r0 k]}).
  { rewrite Hw1. unfold handle_opened.
    apply Z.eqb_neq in Hh. rewrite Hh. reflexivity. }
  assert (Htrace1 : trace w1 = trace w ++ [ThreadStart t; CallCreateMutex (Pinned t) n false]).
  { rewrite Hw1, trace_handle_opened. simpl. rewrite <- app_assoc. reflexivity. }
  split; [|split].
  - rewrite Hlive3, Hlive2, Hlive1. apply fresh_thread_roundtrip.
  - revert Hclose. unfold Close, lockedthread.Run, lockedthread.Close, close_on_thread.
    rewrite Ht, Hl. apply Z.eqb_neq in Hhm'. rewrite Hhm'. simpl.
    intros H; inversion H; subst w3. simpl.
    rewrite Hhm, Hhandles2, Hhandles1. apply handle_roundtrip, Hfresh.
  - rewrite Htrace3, Htrace2, Htrace1, Hhm. simpl.
    rewrite <- !app_assoc. reflexivity.
Qed.

Lemma New_Lock_Unlock_Close_witness :
  exists w2 w3,
    calls [DoLock (syscall.mkWait 0 None); DoUnlock (mkReply 1 0)] m0
      (handle_opened 4
         (log (CallCreateMutex (Pinned 0) "Global\M" false)
            (log (ThreadStart 0) (set_live (live w_empty ∪ {[0%nat]}) w_empty))))
      = (m0, w2) /\
    Close (mkReply 1 0) None m0 w2 = Returns None (mkMutex "Global\M" None 0 false) w3 /\
    live w3 = live w_empty /\ handles w3 = handles w_empty /\
    trace w3 =
      trace w_empty ++ [ThreadStart (fresh (live w_empty));
                        CallCreateMutex (Pinned (fresh (live w_empty))) "Global\M" false;
                        CallWait (Pinned (fresh (live w_empty))) 4 syscall.INFINITE;
                        CallReleaseMutex (Pinned (fresh (live w_empty))) 4;
                        CallCloseHandle (Pinned (fresh (live w_empty))) 4;
                        ThreadExit (fresh (live w_empty))].
Proof.
  apply (New_Lock_Unlock_Close "Global\M" (mkReply 4 0) w_empty m0 _
           (syscall.mkWait 0 None) (mkReply 1 0) (mkReply 1 0) New_m0);
    try reflexivity.
  - discriminate.
  - apply not_elem_of_empty.
Defined.

(** ** Panics of a mutex in use *)

Lemma Inv_reachable (n : string) (m : Mutex) :
  reachable create_reply_contract n m -> Inv m.
Proof.
  intros Hreach.
  induction Hreach as [k w m w' Hk Hnew | r m w _ IH | r m w _ IH
                      | k m w _ IH | k c m w _ IH].
  - exact (Inv_New n k w m w' Hk Hnew).
  - apply Inv_Lock, IH.
  - apply Inv_TryLock, IH.
  - apply Inv_Unlock, IH.
  - apply Inv_Close, IH.
Qed.

(** X17: on a mutex made by [New] (the kernel keeping the contract of the
    create call) and used in any way since, the only panics are the
    package's own: [Lock] and [TryLock] panic with their closed-mutex message
    or with the wrapped wait error; [Unlock] panics with its not-locked
    message, its not-released message or the wrapped release error; [Close]
    never panics.  The executor's closed-thread panic and a nil dereference
    never come through. *)
Theorem only_documented_panics (n : string) (m : Mutex) :
  reachable create_reply_contract n m ->
  (forall r w p m' w',
     Lock r m w = Panics p m' w' ->
     p = lock_closed \/
     exists e, syscall.werr r = Some e /\ p = PanicError (mutexWaitError n e)) /\
  (forall r w p m' w',
     TryLock r m w = Panics p m' w' ->
     p = trylock_closed \/
     exists e, syscall.werr r = Some e /\ p = PanicError (mutexWaitError n e)) /\
  (forall k w p m' w',
     Unlock k m w = Panics p m' w' ->
     p = unlock_not_locked \/
     (release_error k = None /\ released k = false /\ p = unlock_not_released) \/
     exists e, release_error k = Some e /\
               p = PanicError (WrapError "winmutex: Mutex.Unlock()" e)) /\
  (forall k c w, exists err m' w', Close k c m w = Returns err m' w').
Proof.
  intros Hreach.
  pose proof (name_reachable _ n m Hreach) as Hname.
  pose proof (Inv_reachable n m Hreach) as (Hlocked & Hboth & Hopen).
  split; [|split; [|split]].
  - intros r w p m' w'.
    destruct (thread m) as [th|] eqn:Ht.
    + rewrite (Lock_open r m w th Ht (Hopen th eq_refl)). cbv zeta.
      destruct (syscall.werr r) as [e|]; [|discriminate].
      intros H; inversion H; subst. right. exists e. auto.
    + unfold Lock. rewrite Ht. intros H; inversion H. auto.
  - intros r w p m' w'.
    destruct (thread m) as [th|] eqn:Ht.
    + rewrite (TryLock_open r m w th Ht (Hopen th eq_refl)). cbv zeta.
      destruct (syscall.werr r) as [e|].
      * intros H; inversion H; subst. right. exists e. auto.
      * destruct (syscall.event r =? synchapi.WaitTimeout); discriminate.
    + unfold TryLock. rewrite Ht. intros H; inversion H. auto.
  - intros k w p m' w'.
    destruct (locked m) eqn:Hl.
    + destruct (Hlocked eq_refl) as [_ Hsome].
      destruct (thread m) as [th|] eqn:Ht; [|contradiction Hsome; reflexivity].
      rewrite (Unlock_open k m w th Hl Ht (Hopen th eq_refl)). cbv zeta.
      destruct (release_error k) as [e|].
      * intros H; inversion H; subst. right. right. exists e. auto.
      * destruct (released k); [discriminate|].
        intros H; inversion H; subst. right. left. auto.
    + unfold Unlock. rewrite Hl. simpl. intros H; inversion H. auto.
  - intros k c w.
    destruct (thread m) as [th|] eqn:Ht.
    + assert (Hh : handle m <> 0) by (apply Hboth; discriminate).
      destruct (Close_open k c m w th Ht (Hopen th eq_refl) Hh) as (w' & Hclose & _).
      eauto.
    + rewrite (Close_closed k c m w Ht). eauto.
Qed.

Lemma only_documented_panics_witness :
  exists err m' w',
    Close (mkReply 0 6) (Some (Errno 6))
      (after (Lock (syscall.mkWait 0 None) m0 w0)) w0 = Returns err m' w'.
Proof.
  apply (only_documented_panics "Global\M" (after (Lock (syscall.mkWait 0 None) m0 w0))).
  apply reach_Lock, m0_reachable, contract_reply_4_0.
Defined.

(** ** Exists, continued *)

(** X18: [Exists] starts no thread and makes its native calls on the
    caller's own thread: at most an open call followed by a handle close. *)
Theorem Exists_on_the_caller_thread (name : string) (k : SyscallReply)
    (c : option error) (w : World) :
  live (Exists name k c w).2 = live w /\
  exists evs,
    trace (Exists name k c w).2 = trace w ++ evs /\
    Forall on_caller evs /\
    (evs = [] \/ evs = [CallOpenMutex Caller name] \/
     evs = [CallOpenMutex Caller name; CallCloseHandle Caller (r0 k)]).
Proof.
  unfold Exists, synchapi.OpenMutex.
  destruct (synchapi.too_long name).
  { simpl. split; [reflexivity|]. exists []. rewrite app_nil_r. auto. }
  destruct (synchapi.utf16Name name) as [e|].
  { destruct e; try destruct (_ =? _); simpl;
      (split; [reflexivity|]); exists []; rewrite app_nil_r; auto. }
  cbv zeta. unfold handle_opened.
  destruct (r0 k =? 0) eqn:Hr; destruct (lasterr k =? 0) eqn:He;
    cbn [andb]; rewrite ?He.
  - simpl. split; [reflexivity|].
    exists [CallOpenMutex Caller name]. repeat split; auto; repeat constructor.
  - destruct (lasterr k =? syscall.ERROR_FILE_NOT_FOUND); simpl;
      (split; [reflexivity|]);
      exists [CallOpenMutex Caller name]; repeat split; auto; repeat constructor.
  - destruct c as [ce|]; simpl; (split; [reflexivity|]);
      exists [CallOpenMutex Caller name; CallCloseHandle Caller (r0 k)];
      rewrite <- app_assoc; repeat split; auto; repeat constructor.
  - destruct (lasterr k =? syscall.ERROR_FILE_NOT_FOUND); simpl;
      (split; [reflexivity|]);
      exists [CallOpenMutex Caller name]; repeat split; auto; repeat constructor.
Qed.

(** X19: with a kernel that keeps the contract of the open call, a handle
    that was not open before and a [CloseHandle] that succeeds, [Exists]
    leaves the process's open handles as they were; and for a name that
    passes the checks it answers [true] exactly when the kernel returned a
    handle. *)
Theorem Exists_leaves_no_handle (name : string) (k : SyscallReply) (w : World) :
  open_reply_contract k ->
  r0 k ∉ handles w ->
  handles (Exists name k None w).2 = handles w /\
  (name_ok name -> ((Exists name k None w).1.1 = true <-> r0 k <> 0)).
Proof.
  intros Hk Hfresh. unfold open_reply_contract in Hk.
  destruct (synchapi.too_long name) eqn:Hlen.
  { unfold Exists, synchapi.OpenMutex. rewrite Hlen. simpl.
    split; [reflexivity|]. intros [Hf _]. congruence. }
  destruct (synchapi.utf16Name name) as [e|] eqn:Hutf.
  { unfold Exists, synchapi.OpenMutex. rewrite Hlen, Hutf.
    split; [|intros [_ Hf]; congruence].
    destruct e; try destruct (_ =? _); reflexivity. }
  unfold Exists. rewrite (OpenMutex_ok name k Caller w (conj Hlen Hutf)). cbv zeta.
  destruct (r0 k =? 0) eqn:Hr.
  - apply Z.eqb_eq in Hr.
    assert (He : lasterr k <> 0) by (apply Hk; exact Hr).
    apply Z.eqb_neq in He. rewrite He. cbn [andb]. rewrite He.
    unfold handle_opened. rewrite Hr. cbn [Z.eqb].
    destruct (lasterr k =? syscall.ERROR_FILE_NOT_FOUND); simpl.
    + split; [reflexivity|]. intros _. split; [discriminate | congruence].
    + split; [reflexivity|]. intros _. split; [discriminate | congruence].
  - assert (He : lasterr k = 0).
    { destruct (Z.eq_dec (lasterr k) 0) as [H|H]; [exact H|].
      exfalso. apply Z.eqb_neq in Hr. apply Hr, Hk, H. }
    rewrite He. cbn [andb Z.eqb].
    unfold handle_opened. rewrite Hr. simpl.
    apply Z.eqb_neq in Hr.
    split; [apply handle_roundtrip, Hfresh|]. intros _. split; auto.
Qed.

Lemma Exists_leaves_no_handle_witness :
  handles (Exists "Global\M" (mkReply 4 0) None w_empty).2 = handles w_empty /\
  (name_ok "Global\M" ->
   ((Exists "Global\M" (mkReply 4 0) None w_empty).1.1 = true <-> 4 <> 0)).
Proof.
  apply (Exists_leaves_no_handle "Global\M" (mkReply 4 0) w_empty).
  - unfold open_reply_contract. simpl. lia.
  - apply not_elem_of_empty.
Defined.

(** ** When New succeeds *)

(** X20: [New] returns a mutex exactly when the name passes the checks and
    the last-error code of the create call is 0 or [ERROR_ALREADY_EXISTS];
    the value the kernel returned plays no part in the decision and becomes
    the handle of the instance as it is: every mutex [New] returns has
    [r0 k] for its handle, and under that condition [New] returns the
    instance with that handle. *)
Theorem New_succeeds_iff (n : string) (k : SyscallReply) (w : World) :
  ((exists m w', New n k w = NewReturns (Some m) None w') <->
   name_ok n /\ (lasterr k = 0 \/ lasterr k = syscall.ERROR_ALREADY_EXISTS)) /\
  (forall m w', New n k w = NewReturns (Some m) None w' -> handle m = r0 k) /\
  (name_ok n /\ (lasterr k = 0 \/ lasterr k = syscall.ERROR_ALREADY_EXISTS) ->
   exists w',
     New n k w =
       NewReturns
         (Some (mkMutex n
                  (Some (lockedthread.mkThread (fresh (live w)) true true))
                  (r0 k) false))
         None w').
Proof.
  assert (Hif : name_ok n /\ (lasterr k = 0 \/ lasterr k = syscall.ERROR_ALREADY_EXISTS) ->
                exists w',
                  New n k w =
                    NewReturns
                      (Some (mkMutex n
                               (Some (lockedthread.mkThread (fresh (live w)) true true))
                               (r0 k) false))
                      None w').
  { intros [Hok Hcode].
    rewrite New_cases. cbv zeta. rewrite (CreateMutex_ok n false k _ _ Hok). cbv zeta.
    destruct (lasterr k =? syscall.ERROR_ALREADY_EXISTS) eqn:Hex; [eauto|].
    destruct (lasterr k =? 0) eqn:Hz; [eauto|].
    apply Z.eqb_neq in Hex, Hz. destruct Hcode; contradiction. }
  split; [split|split].
  - intros (m & w' & Hnew).
    pose proof (New_success n k w m w' Hnew) as [_ Hcode].
    split; [|exact Hcode].
    rewrite New_cases in Hnew. cbv zeta in Hnew.
    unfold synchapi.CreateMutex, name_ok in *.
    destruct (synchapi.too_long n); [discriminate|].
    destruct (synchapi.utf16Name n); [discriminate|]. auto.
  - intros Hcond. destruct (Hif Hcond) as (w' & Hnew). eauto.
  - intros m w' Hnew.
    pose proof (New_success n k w m w' Hnew) as [-> _]. reflexivity.
  - exact Hif.
Qed.

Lemma New_succeeds_iff_witness :
  handle m0 = r0 (mkReply 4 0) /\
  exists w',
    New "Global\M" (mkReply 4 0) w_empty =
      NewReturns
        (Some (mkMutex "Global\M"
                 (Some (lockedthread.mkThread (fresh (live w_empty)) true true))
                 (r0 (mkReply 4 0)) false))
        None w'.
Proof.
  destruct (New_succeeds_iff "Global\M" (mkReply 4 0) w_empty) as (_ & Hhandle & Hret).
  split.
  - exact (Hhandle m0 _ New_m0).
  - apply Hret. split; [split; reflexivity | left; reflexivity].
Defined.
